(** * Diskmaker: device discovery, matching and symlink materialisation

    A shallow embedding of [pkg/diskmaker] (the daemon that reads the
    disk configuration, finds the unmounted block devices of the node
    and symlinks them under one directory per storage class), together
    with the properties of its reconciliation cycle.

    Go strings are byte strings: they are modelled by [string], whose
    characters are the 256 byte values.  Go maps are [gmap]s, the
    [sets.String] of apimachinery is a [gset string]. *)

From Stdlib Require Import Ascii ZArith.
From stdpp Require Import gmap strings list fin_maps sorting.

Local Open Scope stdpp_scope.

(** ** The pieces of the Go standard library the daemon calls *)

(** *** Package [strings] *)
Module strings.

(** [strings.Split(s, sep)] for a separator of one byte, which is how
    the daemon calls it (on a newline and on a space): the fields
    between the occurrences of [sep], empty fields included; the
    result is never empty. *)
Fixpoint Split (s : string) (sep : ascii) : list string :=
  match s with
  | EmptyString => [EmptyString]
  | String c rest =>
      if Ascii.eqb c sep then EmptyString :: Split rest sep
      else match Split rest sep with
           | field :: fields => String c field :: fields
           | [] => [String c EmptyString]
           end
  end.

(** [strings.Join(elems, sep)] for a separator of one byte. *)
Fixpoint Join (elems : list string) (sep : ascii) : string :=
  match elems with
  | [] => EmptyString
  | [e] => e
  | e :: more => e +:+ String sep (Join more sep)
  end.

(** The six ASCII bytes of [unicode.IsSpace]. *)
Definition asciiSpace (c : ascii) : bool :=
  match c with
  | "009"%char | "010"%char | "011"%char | "012"%char | "013"%char | " "%char => true
  | _ => false
  end.

(** The UTF-8 encodings of the other code points with the White_Space
    property: U+0085 and U+00A0 (two bytes), U+1680, U+2000..U+200A,
    U+2028, U+2029, U+202F, U+205F and U+3000 (three bytes). *)
Definition space2 (a b : ascii) : bool :=
  Ascii.eqb a "194"%char && (Ascii.eqb b "133"%char || Ascii.eqb b "160"%char).

Definition space3 (a b c : ascii) : bool :=
  let n := nat_of_ascii c in
  (Ascii.eqb a "225"%char && Ascii.eqb b "154"%char && Ascii.eqb c "128"%char)
  || (Ascii.eqb a "226"%char && Ascii.eqb b "128"%char
      && ((128 <=? n) && (n <=? 138) || Ascii.eqb c "168"%char
          || Ascii.eqb c "169"%char || Ascii.eqb c "175"%char))
  || (Ascii.eqb a "226"%char && Ascii.eqb b "129"%char && Ascii.eqb c "159"%char)
  || (Ascii.eqb a "227"%char && Ascii.eqb b "128"%char && Ascii.eqb c "128"%char).

(** Leading white space is dropped rune by rune. *)
Fixpoint trimLeft (s : string) : string :=
  match s with
  | EmptyString => EmptyString
  | String a s1 =>
      if asciiSpace a then trimLeft s1
      else match s1 with
           | EmptyString => s
           | String b s2 =>
               if space2 a b then trimLeft s2
               else match s2 with
                    | EmptyString => s
                    | String c s3 => if space3 a b c then trimLeft s3 else s
                    end
           end
  end.

(** Trailing white space, on the reversed string: the bytes of a rune
    come last byte first. *)
Fixpoint trimLeftRev (s : string) : string :=
  match s with
  | EmptyString => EmptyString
  | String c s1 =>
      if asciiSpace c then trimLeftRev s1
      else match s1 with
           | EmptyString => s
           | String b s2 =>
               if space2 b c then trimLeftRev s2
               else match s2 with
                    | EmptyString => s
                    | String a s3 => if space3 a b c then trimLeftRev s3 else s
                    end
           end
  end.

(** [strings.TrimSpace(s)]: [s] without its leading and trailing
    white space, as Unicode defines it. *)
Definition TrimSpace (s : string) : string :=
  String.rev (trimLeftRev (String.rev (trimLeft s))).

End strings.

(** *** Package [path] *)
Module path.

(** The state of [Clean] while it reads a path element by element:
    the [..] elements a relative path starts with, and the names kept
    after them, the last one first. *)
Record cleaned := Cleaned { ups : nat; kept : list string }.

Definition cleanStep (rooted : bool) (st : cleaned) (elem : string) : cleaned :=
  if String.eqb elem "" || String.eqb elem "." then st
  else if String.eqb elem ".." then
    match kept st with
    | _ :: below => Cleaned (ups st) below
    | [] => if rooted then st else Cleaned (S (ups st)) []
    end
  else Cleaned (ups st) (elem :: kept st).

Definition isRooted (p : string) : bool :=
  match p with
  | String "/"%char _ => true
  | _ => false
  end.

(** The path a state stands for: the root or nothing, the [..]
    elements, the names; [.] when that is empty. *)
Definition render (rooted : bool) (st : cleaned) : string :=
  let body := strings.Join (replicate (ups st) ".." ++ rev (kept st)) "/"%char in
  if rooted then String "/"%char body
  else if String.eqb body "" then "." else body.

(** [path.Clean(p)]: the shortest path equivalent to [p] by purely
    lexical processing.  Repeated slashes and [.] elements go, an
    inner [..] goes with the name before it, a [..] at the start of a
    rooted path goes; the empty result is [.]. *)
Definition Clean (p : string) : string :=
  if String.eqb p "" then "."
  else
    let rooted := isRooted p in
    render rooted (fold_left (cleanStep rooted) (strings.Split p "/"%char) (Cleaned 0 [])).

(** [path.Join(a, b)]: the non-empty elements joined by a slash and
    cleaned; the empty string when both are empty. *)
Definition Join (a b : string) : string :=
  if String.eqb a "" then (if String.eqb b "" then "" else Clean b)
  else Clean (a +:+ String "/"%char b).

(** [path.Dir(p)]: all but the last element of [p], cleaned. *)
Definition Dir (p : string) : string :=
  let elems := strings.Split p "/"%char in
  Clean (strings.Join (removelast elems) "/"%char
         +:+ (if 1 <? length elems then "/" else "")).

End path.

(** *** Package [hash/fnv] and the [%x] verb of [fmt] *)
Module fnv.

Definition offset32 : N := 2166136261.
Definition prime32 : N := 16777619.

(** One byte of FNV-1a on 32 bits: xor the byte in, then multiply,
    the product wrapping at 2^32. *)
Definition step32a (h : N) (c : ascii) : N :=
  (N.lxor h (N_of_ascii c) * prime32) mod 2 ^ 32.

Fixpoint write32a (h : N) (data : string) : N :=
  match data with
  | EmptyString => h
  | String c rest => write32a (step32a h c) rest
  end.

End fnv.

Module fmt.

Definition hexDigit (n : N) : ascii :=
  if (n <? 10)%N then ascii_of_N (48 + n) else ascii_of_N (87 + n).

Fixpoint hexInto (digits : nat) (n : N) (acc : string) : string :=
  match digits with
  | O => acc
  | S more =>
      let acc := String (hexDigit (n mod 16)) acc in
      if (n / 16 =? 0)%N then acc else hexInto more (n / 16) acc
  end.

(** [%x] of a [uint32]: lower-case hexadecimal without padding. *)
Definition hex32 (n : N) : string := hexInto 8 n "".

End fmt.

(** ** Errors *)

Inductive Errno := ENOENT | EEXIST | ENOTDIR | EACCES | ELOOP.

Definition Errno_text (e : Errno) : string :=
  match e with
  | ENOENT => "no such file or directory"
  | EEXIST => "file exists"
  | ENOTDIR => "not a directory"
  | EACCES => "permission denied"
  | ELOOP => "too many levels of symbolic links"
  end.

(** The error values the daemon meets: [*os.PathError], [*os.LinkError]
    and the errors made by [fmt.Errorf] or by [os/exec]. *)
Inductive goError :=
| PathError (op path : string) (errno : Errno)
| LinkError (op old new : string) (errno : Errno)
| ErrorString (text : string).

(** A Go [error]: [None] is [nil]. *)
Abbreviation error := (option goError).

Definition Error (e : goError) : string :=
  match e with
  | PathError op path errno => op +:+ " " +:+ path +:+ ": " +:+ Errno_text errno
  | LinkError op old new errno =>
      op +:+ " " +:+ old +:+ " " +:+ new +:+ ": " +:+ Errno_text errno
  | ErrorString text => text
  end.

(** What the [%v] verb prints for an [error]. *)
Definition fmtV (err : error) : string :=
  match err with
  | None => "<nil>"
  | Some e => Error e
  end.

(** ** Events *)

(** Modelled from the spec: the kind of an event, error or success.  The
    events are declared in a file of the package that is not at hand. *)
Inductive eventKind := ErrorEvent | SuccessEvent.

(** Modelled from the spec: the reason codes of the events, under the
    names [symLinkDisks] and [findMatchingDisks] use; their declaration
    is in the same missing file. *)
Inductive eventReasonCode :=
| ErrorRunningBlockList
| ErrorReadingBlockList
| ErrorListingDeviceID
| ErrorFindingMatchingDisk
| ErrorCreatingSharedDir
| FoundMatchingDisk.

(** Modelled from the spec: the event record of the missing file, a
    kind, a reason code, a message and an optional device path. *)
Record event := Event {
  eventType : eventKind;
  eventReason : eventReasonCode;
  message : string;
  diskName : string
}.

(** Modelled from the spec: [newEvent] of the missing file makes an
    event of the error kind. *)
Definition newEvent (eventReason : eventReasonCode) (message disk : string) : event :=
  Event ErrorEvent eventReason message disk.

(** Modelled from the spec: [newSuccessEvent] of the missing file makes
    an event of the success kind. *)
Definition newSuccessEvent (eventReason : eventReasonCode) (message disk : string) : event :=
  Event SuccessEvent eventReason message disk.

Global Instance eventKind_eq_dec : EqDecision eventKind.
Proof. solve_decision. Defined.
Global Instance eventReasonCode_eq_dec : EqDecision eventReasonCode.
Proof. solve_decision. Defined.
Global Instance event_eq_dec : EqDecision event.
Proof. solve_decision. Defined.

(** ** The host: file system, block-device listing, identifier glob *)

(** What a path names.  The file system is a finite map from cleaned
    paths to nodes; [denied] holds the paths the daemon may not reach
    (every call on them answers EACCES). *)
Inductive Node :=
| Directory
| Regular
| BlockDevice
| SymbolicLink (target : string).

Global Instance Node_eq_dec : EqDecision Node.
Proof. solve_decision. Defined.

Record Host := MkHost {
  nodes : gmap string Node;
  denied : gset string;
  (** standard output and exit status of
      [lsblk --list -o NAME,MOUNTPOINT --noheadings] *)
  lsblk : string * error;
  (** the answer of [filepath.Glob] on [diskByIDPath] *)
  globbed : list string * error
}.

Definition withNodes (h : Host) (n : gmap string Node) : Host :=
  MkHost n (denied h) (lsblk h) (globbed h).

(** Where a symbolic link found at [p] leads. *)
Definition linkTarget (p target : string) : string :=
  if path.isRooted target then path.Clean target
  else path.Clean (path.Dir p +:+ String "/"%char target).

(** Follow the symbolic links from the cleaned path [p] to the node
    that is not one, through at most [links] of them.  The file system
    is a map from whole paths: a link among the directories above [p]
    is not followed. *)
Fixpoint resolve (links : nat) (h : Host) (p : string) : string * Node + Errno :=
  if decide (p ∈ denied h) then inr EACCES
  else match nodes h !! p with
       | None => inr ENOENT
       | Some (SymbolicLink target) =>
           match links with
           | O => inr ELOOP
           | S fewer => resolve fewer h (linkTarget p target)
           end
       | Some node => inl (p, node)
       end.

(** *** Package [path/filepath] *)
Module filepath.

(** [filepath.Base(p)]: the last element of [p], trailing slashes
    removed first; [.] for the empty path and [/] for a path of
    slashes only. *)
Definition Base (p : string) : string :=
  if String.eqb p "" then "."
  else match last (filter (λ e, e ≠ "") (strings.Split p "/"%char)) with
       | Some e => e
       | None => "/"
       end.

(** [filepath.EvalSymlinks(p)]: the cleaned path after all links are
    followed (255 at most); the empty path evaluates to itself. *)
Definition EvalSymlinks (h : Host) (p : string) : string + goError :=
  if String.eqb p "" then inl ""
  else match resolve 255 h (path.Clean p) with
       | inl (q, _) => inl q
       | inr ELOOP => inr (ErrorString "EvalSymlinks: too many links")
       | inr errno => inr (PathError "lstat" p errno)
       end.

End filepath.

(** *** Package [os] *)
Module os.

(** [os.IsNotExist(err)]. *)
Definition IsNotExist (err : error) : bool :=
  match err with
  | Some (PathError _ _ ENOENT) | Some (LinkError _ _ _ ENOENT) => true
  | _ => false
  end.

(** [os.Stat(p)], which follows symbolic links (40 at most).  A path
    that has no node answers ENOENT.  The answer ENOTDIR that a path
    below a file that is not a directory has is not told apart: what
    is proved of a path that is not there is proved for the paths of
    [notThere] below, above which there is nothing but directories. *)
Definition Stat (h : Host) (p : string) : Node + goError :=
  if String.eqb p "" then inr (PathError "stat" p ENOENT)
  else match resolve 40 h (path.Clean p) with
       | inl (_, node) => inl node
       | inr errno => inr (PathError "stat" p errno)
       end.

(** [os.Lstat(p)], which does not. *)
Definition Lstat (h : Host) (p : string) : Node + goError :=
  if String.eqb p "" then inr (PathError "lstat" p ENOENT)
  else if decide (path.Clean p ∈ denied h) then inr (PathError "lstat" p EACCES)
  else match nodes h !! path.Clean p with
       | Some node => inl node
       | None => inr (PathError "lstat" p ENOENT)
       end.

(** May an entry be made at [p]?  Not at the empty path, not where the
    daemon is denied, not where something is, and only in a
    directory. *)
Definition creatable (h : Host) (p : string) : option Errno :=
  if String.eqb p "" then Some ENOENT
  else if decide (path.Clean p ∈ denied h) then Some EACCES
  else if decide (is_Some (nodes h !! path.Clean p)) then Some EEXIST
  else match Stat h (path.Dir (path.Clean p)) with
       | inl Directory => None
       | inl _ => Some ENOTDIR
       | inr (PathError _ _ errno) => Some errno
       | inr _ => Some ENOENT
       end.

(** [os.Mkdir(p, 0755)]. *)
Definition Mkdir (h : Host) (p : string) : Host * error :=
  match creatable h p with
  | Some errno => (h, Some (PathError "mkdir" p errno))
  | None => (withNodes h (<[path.Clean p := Directory]> (nodes h)), None)
  end.

(** [os.Symlink(old, new)]. *)
Definition Symlink (h : Host) (old new : string) : Host * error :=
  match creatable h new with
  | Some errno => (h, Some (LinkError "symlink" old new errno))
  | None => (withNodes h (<[path.Clean new := SymbolicLink old]> (nodes h)), None)
  end.

(** The directories above [p] that [os.MkdirAll] makes when they are
    missing, the nearest first; the root and the working directory are
    not among them. *)
Definition ancestorsOf (p : string) : list string :=
  let elems := strings.Split p "/"%char in
  reverse (filter (λ q, q ≠ "")
             ((λ k, strings.Join (take k elems) "/"%char) <$> seq 1 (length elems - 1))).

(** [os.MkdirAll] along a path and the directories above it: a
    directory that is there ends the walk, a path that is something
    else is an error, and what is missing is made once the directories
    above it are. *)
Fixpoint mkdirAllChain (chain : list string) (h : Host) : Host * error :=
  match chain with
  | [] => (h, None)
  | p :: above =>
      match Stat h p with
      | inl Directory => (h, None)
      | inl _ => (h, Some (PathError "mkdir" p ENOTDIR))
      | inr _ =>
          match mkdirAllChain above h with
          | (h1, Some err) => (h1, Some err)
          | (h1, None) =>
              match Mkdir h1 p with
              | (h2, Some err) =>
                  match Lstat h2 p with
                  | inl Directory => (h2, None)
                  | _ => (h2, Some err)
                  end
              | made => made
              end
          end
      end
  end.

(** [os.MkdirAll(p, 0755)], for the cleaned paths the daemon passes. *)
Definition MkdirAll (h : Host) (p : string) : Host * error :=
  mkdirAllChain (p :: ancestorsOf p) h.

(** [os.Open(p)] succeeds where [os.Stat(p)] does. *)
Definition Open (h : Host) (p : string) : Node + goError :=
  match Stat h p with
  | inr (PathError _ path errno) => inr (PathError "open" path errno)
  | other => other
  end.

End os.

(** ** One cycle of the daemon as a state monad *)

(** The calls of a cycle that may change the file system. *)
Inductive Syscall :=
| SysMkdirAll (p : string)
| SysSymlink (old new : string).

(** The host, the events handed to [eventSync.report] and the changing
    calls made, both oldest first.  The owner every event is reported
    for is the daemon's [localVolume], the same during a cycle. *)
Record World := MkWorld {
  host : Host;
  reported : list event;
  attempted : list Syscall
}.

Definition M (A : Type) : Type := World → A * World.

Definition ret {A} (a : A) : M A := λ w, (a, w).
Definition bind {A B} (m : M A) (k : A → M B) : M B :=
  λ w, let (a, w1) := m w in k a w1.

Notation "'let*' x := m 'in' k" := (bind m (λ x, k))
  (at level 10, x name, m at level 100, k at level 200, only parsing).
Notation "'let*' ' x := m 'in' k" := (bind m (λ x, k))
  (at level 10, x pattern, m at level 100, k at level 200, only parsing).

(** Read the host without changing it. *)
Definition ask {A} (f : Host → A) : M A := λ w, (f (host w), w).

(** Modelled from the spec: the event reporter behind
    [d.eventSync.report(e, d.localVolume)] is declared in a file of the
    package that is not at hand.  It is an interface with one method
    that takes the event and the owner, fire and forget: a report is
    recorded, in the order the reports are made. *)
Definition report (e : event) : M unit :=
  λ w, (tt, MkWorld (host w) (reported w ++ [e]) (attempted w)).

Definition callMkdirAll (p : string) : M error :=
  λ w, let (h, err) := os.MkdirAll (host w) p in
       (err, MkWorld h (reported w) (attempted w ++ [SysMkdirAll p])).

Definition callSymlink (old new : string) : M error :=
  λ w, let (h, err) := os.Symlink (host w) old new in
       (err, MkWorld h (reported w) (attempted w ++ [SysSymlink old new])).

(** A [for ... range] loop over a slice. *)
Fixpoint forEach {A} (items : list A) (body : A → M unit) : M unit :=
  match items with
  | [] => ret tt
  | item :: more => let* _ := body item in forEach more body
  end.

(** The same for a loop that updates a local variable. *)
Fixpoint forEachWith {A S} (items : list A) (body : A → S → M S) (local : S) : M S :=
  match items with
  | [] => ret local
  | item :: more => let* local := body item local in forEachWith more body local
  end.

(** Go ranges over a map in an order it does not specify: any order
    that visits every entry once. *)
Record MapRange := {
  rangeOver : ∀ V, gmap string V → list (string * V);
  rangeOver_perm : ∀ V (m : gmap string V), rangeOver V m ≡ₚ map_to_list m
}.
Arguments rangeOver _ {V} _.

(** ** The configuration *)

Module sets.
(** [sets.String.List()]: the members, sorted. *)
Definition List (s : gset string) : list string := merge_sort String.le (elements s).
End sets.

(** Modelled from the spec: [Disks], declared in a file of the package
    that is not at hand, is the selection policy of a storage class: a
    set of device paths, a set of stable-identifier paths (its methods
    [DeviceNames] and [DeviceIDs] return them as [sets.String]) and the
    shared directories. *)
Record Disks := MkDisks {
  DeviceNames : gset string;
  DeviceIDs : gset string;
  DirectoryPaths : list string
}.

(** Modelled from the spec: [DiskConfig], declared in the same missing
    file; its field [Disks] maps the storage-class names to their
    policies. *)
Record DiskConfig := MkDiskConfig {
  ConfigDisks : gmap string Disks
}.

(** ** Package [diskmaker] *)

Definition diskByIDPath : string := "/dev/disk/by-id/*".
Definition rootfsDir : string := "/rootfs".

Record DiskMaker := MkDiskMaker {
  configLocation : string;
  symlinkLocation : string
}.

Record DiskLocation := MkDiskLocation {
  (** the full device name path, such as /dev/sda *)
  diskNamePath : string;
  diskID : string;
  directoryPath : string
}.

Global Instance DiskLocation_eq_dec : EqDecision DiskLocation.
Proof. solve_decision. Defined.

(** One turn of the loop of [findNewDisks]: only the devices that are
    not mounted are considered. *)
Definition findNewDisksLine (deviceSet : gset string) (deviceLine : string) : gset string :=
  let deviceLine := strings.TrimSpace deviceLine in
  let deviceDetails := strings.Split deviceLine " "%char in
  if (length deviceDetails =? 1) && (0 <? String.length (nth 0 deviceDetails ""))
  then {[ nth 0 deviceDetails "" ]} ∪ deviceSet
  else deviceSet.

Definition findNewDisks (content : string) : gset string * error :=
  let deviceLines := strings.Split content "010"%char in
  (fold_left findNewDisksLine deviceLines ∅, None).

Definition hasExactDisk (disks : gset string) (device : string) : bool :=
  existsb (λ disk, String.eqb disk device) (sets.List disks).

(** [fileExists] checks if a file exists. *)
Definition fileExists (h : Host) (filename : string) : bool :=
  let err := match os.Stat h filename with inl _ => None | inr e => Some e end in
  if os.IsNotExist err then false else true.

(** [isDir] checks if the given path is a directory.  [os.Stat] on the
    file [os.Open] returned answers what [os.Open] saw. *)
Definition isDir (h : Host) (fullPath : string) : bool * error :=
  match os.Open h fullPath with
  | inr err => (false, Some err)
  | inl stat => (bool_decide (stat = Directory), None)
  end.

Definition generateBindName (file class : string) : string :=
  let h := fnv.write32a (fnv.write32a fnv.offset32 file) class in
  "local-shared-" +:+ fmt.hex32 h.

(** [findDeviceByID] finds device ID and returns (deviceID, deviceName, error). *)
Definition findDeviceByID (h : Host) (deviceID : string) : string * string * error :=
  match filepath.EvalSymlinks h deviceID with
  | inr _ => ("", "", Some (ErrorString ("unable to find device with id " +:+ deviceID)))
  | inl diskDevPath => (deviceID, diskDevPath, None)
  end.

Fixpoint findStableDeviceID (h : Host) (diskName : string) (allDisks : list string)
  : string * error :=
  match allDisks with
  | [] => ("", Some (ErrorString ("unable to find ID of disk " +:+ diskName)))
  | diskIDPath :: more =>
      match filepath.EvalSymlinks h diskIDPath with
      | inr _ => findStableDeviceID h diskName more
      | inl diskDevPath =>
          let diskDevName := filepath.Base diskDevPath in
          if String.eqb diskDevName diskName then (diskIDPath, None)
          else findStableDeviceID h diskName more
      end
  end.

(** The closure [addDiskToMap] of [findMatchingDisks], on the map it
    captures. *)
Definition addDiskToMap (blockDeviceMap : gmap string (list DiskLocation))
    (scName stableDeviceID diskName directoryPath : string)
  : gmap string (list DiskLocation) :=
  let deviceArray :=
    match blockDeviceMap !! scName with
    | Some deviceArray => deviceArray
    | None => []
    end in
  <[scName := deviceArray ++ [MkDiskLocation diskName stableDeviceID directoryPath]]>
    blockDeviceMap.

Section Cycle.

Context (d : DiskMaker) (order : MapRange).

(** The three inner loops of [findMatchingDisks]: one turn of each. *)
Definition handleDiskName (deviceSet : gset string) (allDiskIds : list string)
    (storageClass diskName : string) (blockDeviceMap : gmap string (list DiskLocation))
  : M (gmap string (list DiskLocation)) :=
  let baseDeviceName := filepath.Base diskName in
  if hasExactDisk deviceSet baseDeviceName then
    let* '(matchedDeviceID, err) := ask (λ h, findStableDeviceID h baseDeviceName allDiskIds) in
    (* no /dev/disk/by-id entry was created for the requested device *)
    if bool_decide (err ≠ None)
    then ret (addDiskToMap blockDeviceMap storageClass "" diskName "")
    else ret (addDiskToMap blockDeviceMap storageClass matchedDeviceID diskName "")
  else ret blockDeviceMap.

Definition handleDeviceID (deviceSet : gset string)
    (storageClass deviceID : string) (blockDeviceMap : gmap string (list DiskLocation))
  : M (gmap string (list DiskLocation)) :=
  let* '(matchedDeviceID, matchedDiskName, err) := ask (λ h, findDeviceByID h deviceID) in
  if bool_decide (err ≠ None) then
    let msg := "unable to add disk-id " +:+ deviceID +:+ " to local disk pool: " +:+ fmtV err in
    let e := newEvent ErrorFindingMatchingDisk msg deviceID in
    let* _ := report e in
    ret blockDeviceMap
  else
    let baseDeviceName := filepath.Base matchedDiskName in
    (* the requested device must not be mounted already *)
    if hasExactDisk deviceSet baseDeviceName
    then ret (addDiskToMap blockDeviceMap storageClass matchedDeviceID matchedDiskName "")
    else ret blockDeviceMap.

Definition handleDirectory
    (storageClass directory : string) (blockDeviceMap : gmap string (list DiskLocation))
  : M (gmap string (list DiskLocation)) :=
  let sharedDirPath := path.Join rootfsDir directory in
  let* present := ask (λ h, fileExists h sharedDirPath) in
  if present then
    let* '(isDir, err) := ask (λ h, isDir h sharedDirPath) in
    let* _ := (if bool_decide (err ≠ None) then
           let msg := "error checking shared dir " +:+ sharedDirPath +:+ ": " +:+ fmtV err in
           let e := newEvent ErrorCreatingSharedDir msg "" in
           report e
         else ret tt) in
    if isDir
    then ret (addDiskToMap blockDeviceMap storageClass "" "" sharedDirPath)
    else ret blockDeviceMap
  else
    let* err := callMkdirAll sharedDirPath in
    if bool_decide (err ≠ None) then
      let msg := "error creating shared dir " +:+ sharedDirPath +:+ ": " +:+ fmtV err in
      let e := newEvent ErrorCreatingSharedDir msg "" in
      let* _ := report e in
      ret blockDeviceMap
    else ret (addDiskToMap blockDeviceMap storageClass "" "" sharedDirPath).

(** One turn of the outer loop of [findMatchingDisks]. *)
Definition handleStorageClass (deviceSet : gset string) (allDiskIds : list string)
    (entry : string * Disks) (blockDeviceMap : gmap string (list DiskLocation))
  : M (gmap string (list DiskLocation)) :=
  let '(storageClass, disks) := entry in
  let deviceNames := sets.List (DeviceNames disks) in
  let* blockDeviceMap :=
    forEachWith deviceNames (handleDiskName deviceSet allDiskIds storageClass) blockDeviceMap in
  let deviceIds := sets.List (DeviceIDs disks) in
  let* blockDeviceMap :=
    forEachWith deviceIds (handleDeviceID deviceSet storageClass) blockDeviceMap in
  forEachWith (DirectoryPaths disks) (handleDirectory storageClass) blockDeviceMap.

Definition findMatchingDisks (diskConfig : DiskConfig) (deviceSet : gset string)
    (allDiskIds : list string)
  : M (gmap string (list DiskLocation) * error) :=
  (* blockDeviceMap is a map of storageclass and device locations *)
  let* blockDeviceMap :=
    forEachWith (rangeOver order (ConfigDisks diskConfig))
      (handleStorageClass deviceSet allDiskIds) ∅ in
  ret (blockDeviceMap, None).

(** One turn of the inner loop of [symLinkDisks]. *)
Definition symLinkDisk (storageClass : string) (deviceNameLocation : DiskLocation) : M unit :=
  let symLinkDirPath := path.Join (symlinkLocation d) storageClass in
  let* err := callMkdirAll symLinkDirPath in
  if bool_decide (err ≠ None) then
    let msg := "error creating symlink dir " +:+ symLinkDirPath +:+ ": " +:+ fmtV err in
    let e := newEvent ErrorFindingMatchingDisk msg "" in
    report e
  else
    (* if it is a shared directory *)
    let* bound :=
      (if bool_decide (directoryPath deviceNameLocation ≠ "") then
         let bindName := generateBindName (directoryPath deviceNameLocation) storageClass in
         let bindPath := path.Join symLinkDirPath bindName in
         ask (λ h, fileExists h bindPath)
       else ret false) in
    if bound then ret tt
    else
      let baseDeviceName := filepath.Base (diskNamePath deviceNameLocation) in
      let symLinkPath := path.Join symLinkDirPath baseDeviceName in
      let* linked := ask (λ h, fileExists h symLinkPath) in
      if linked then ret tt
      else
        let* symLinkErr :=
          (if bool_decide (diskID deviceNameLocation ≠ "")
           then callSymlink (diskID deviceNameLocation) symLinkPath
           else callSymlink (diskNamePath deviceNameLocation) symLinkPath) in
        let* _ := (if bool_decide (symLinkErr ≠ None) then
               let msg := "error creating symlink " +:+ symLinkPath +:+ ": " +:+ fmtV err in
               let e := newEvent ErrorFindingMatchingDisk msg (diskNamePath deviceNameLocation) in
               report e
             else ret tt) in
        let successMsg := "found matching disk " +:+ baseDeviceName in
        let e := newSuccessEvent FoundMatchingDisk successMsg (diskNamePath deviceNameLocation) in
        report e.

(** The loops of [symLinkDisks] over the matched devices. *)
Definition symLinkAll (deviceMap : gmap string (list DiskLocation)) : M unit :=
  forEach (rangeOver order deviceMap)
    (λ entry : string * list DiskLocation,
       let '(storageClass, deviceArray) := entry in
       forEach deviceArray (symLinkDisk storageClass)).

Definition symLinkDisks (diskConfig : DiskConfig) : M unit :=
  let* '(out, err) := ask lsblk in
  if bool_decide (err ≠ None) then
    let msg := "error running lsblk: " +:+ fmtV err in
    report (newEvent ErrorRunningBlockList msg "")
  else
    let '(deviceSet, err) := findNewDisks out in
    if bool_decide (err ≠ None) then
      let msg := "error reading blocklist: " +:+ fmtV err in
      report (newEvent ErrorReadingBlockList msg "")
    else
      (* read all available disks from /dev/disk/by-id/* *)
      let* '(allDiskIds, err) := ask globbed in
      if bool_decide (err ≠ None) then
        let msg := "error listing disks in /dev/disk/by-id: " +:+ fmtV err in
        report (newEvent ErrorListingDeviceID msg "")
      else
        let* '(deviceMap, err) := findMatchingDisks diskConfig deviceSet allDiskIds in
        if bool_decide (err ≠ None) then
          let msg := "eror finding matching disks: " +:+ fmtV err in
          report (newEvent ErrorFindingMatchingDisk msg "")
        else if size deviceMap =? 0 then
          let msg := "found empty matching device list" in
          report (newEvent ErrorFindingMatchingDisk msg "")
        else symLinkAll deviceMap.

End Cycle.

(** Go's own order is one of the orders a map can be ranged in. *)
Definition listOrder : MapRange :=
  {| rangeOver := λ V m, map_to_list m;
     rangeOver_perm := λ V m, reflexivity (map_to_list m) |}.

(** ** Definitions used to state the properties *)

(** *** Strings and paths *)

(** The fields of a line of the block-device listing, as [findNewDisks]
    cuts them: the name first, the mount point second. *)
Definition lineFields (deviceLine : string) : list string :=
  strings.Split (strings.TrimSpace deviceLine) " "%char.

(** The byte [c] occurs in [s]. *)
Fixpoint has (c : ascii) (s : string) : bool :=
  match s with
  | EmptyString => false
  | String a rest => Ascii.eqb a c || has c rest
  end.

(** The string starts with the byte [c]. *)
Definition startsWith (c : ascii) (s : string) : bool :=
  match s with
  | String a _ => Ascii.eqb a c
  | EmptyString => false
  end.

(** A path element that [Clean] keeps as a name. *)
Definition plainName (e : string) : Prop :=
  e ≠ "" ∧ e ≠ "." ∧ e ≠ ".." ∧ has "/"%char e = false.

(** The states [Clean] goes through hold names only, and no [..] for a
    rooted path. *)
Definition wellKept (rooted : bool) (st : path.cleaned) : Prop :=
  Forall plainName (path.kept st) ∧ (rooted = true → path.ups st = 0).

(** *** Hosts and worlds *)

(** What the calls of the daemon can do to a host: make entries where
    there were none. *)
Definition hostGrows (h h' : Host) : Prop :=
  nodes h ⊆ nodes h' ∧ denied h' = denied h ∧ lsblk h' = lsblk h ∧ globbed h' = globbed h.

(** A relation between the worlds before and after that every run of a
    computation satisfies. *)
Definition always {A} (R : relation World) (m : M A) : Prop := ∀ w, R w (m w).2.

(** The host only grows. *)
Definition worldGrows : relation World := λ w w', hostGrows (host w) (host w').

(** The events reported on the way all satisfy [P]. *)
Definition reports (P : event → Prop) : relation World :=
  λ w w', ∃ evs, reported w' = reported w ++ evs ∧ Forall P evs.

(** The changing calls made on the way all satisfy [P]. *)
Definition attempts (P : Syscall → Prop) : relation World :=
  λ w w', ∃ calls, attempted w' = attempted w ++ calls ∧ Forall P calls.

Definition isMkdirAll (c : Syscall) : Prop := ∃ p, c = SysMkdirAll p.

(** Nothing happened but calls of [os.MkdirAll] that changed nothing. *)
Definition untouched : relation World :=
  λ w w', host w' = host w ∧ reported w' = reported w ∧ attempts isMkdirAll w w'.

(** *** The map of the matcher *)

(** The assignments of a storage class. *)
Definition assignmentsOf (m : gmap string (list DiskLocation)) (sc : string)
  : list DiskLocation :=
  default [] (m !! sc).

(** The map only grows: assignments are appended. *)
Definition mapGrows (m m' : gmap string (list DiskLocation)) : Prop :=
  ∀ sc, assignmentsOf m sc `prefix_of` assignmentsOf m' sc.

(** Every class in the map has an assignment. *)
Definition populated (m : gmap string (list DiskLocation)) : Prop :=
  ∀ sc, m !! sc ≠ Some [].

(** Two assignments for the device [name] in a list, past its first [n]
    entries: one for the name, then one for the identifier [id]. *)
Definition twice (name id : string) (n : nat) (l : list DiskLocation) : Prop :=
  ∃ i j stable, n ≤ i ∧ i < j
    ∧ l !! i = Some (MkDiskLocation name stable "")
    ∧ l !! j = Some (MkDiskLocation name id "").

(** What the three passes add for a class with the policy [disks]: an
    assignment for a configured device name, one for a configured
    identifier, or one for a configured directory. *)
Definition selectedBy (disks : Disks) (loc : DiskLocation) : Prop :=
  (diskNamePath loc ∈ DeviceNames disks ∧ directoryPath loc = "")
  ∨ (diskID loc ∈ DeviceIDs disks ∧ (diskID loc ≠ "" → diskNamePath loc ≠ "")
     ∧ directoryPath loc = "")
  ∨ ((∃ directory, directory ∈ DirectoryPaths disks
        ∧ directoryPath loc = path.Join rootfsDir directory)
     ∧ diskNamePath loc = "").

Definition selection (diskConfig : DiskConfig) (m : gmap string (list DiskLocation)) : Prop :=
  ∀ sc loc, loc ∈ assignmentsOf m sc →
    ∃ disks, ConfigDisks diskConfig !! sc = Some disks ∧ selectedBy disks loc.

(** *** The pass over the identifiers, told by identifier *)

(** The event for an identifier that does not resolve. *)
Definition resolutionFailed (deviceID : string) : event :=
  newEvent ErrorFindingMatchingDisk
    ("unable to add disk-id " +:+ deviceID +:+ " to local disk pool: "
     +:+ "unable to find device with id " +:+ deviceID)
    deviceID.

Definition idFailure (h : Host) (deviceID : string) : option event :=
  match filepath.EvalSymlinks h deviceID with
  | inr _ => Some (resolutionFailed deviceID)
  | inl _ => None
  end.

(** The assignment an identifier yields: one when it resolves to a
    device whose base name is among the unmounted devices. *)
Definition idAssignment (h : Host) (deviceSet : gset string) (deviceID : string)
  : option DiskLocation :=
  match filepath.EvalSymlinks h deviceID with
  | inr _ => None
  | inl diskDevPath =>
      if decide (filepath.Base diskDevPath ∈ deviceSet)
      then Some (MkDiskLocation diskDevPath deviceID "")
      else None
  end.

Definition addAll (m : gmap string (list DiskLocation)) (sc : string)
    (locs : list DiskLocation) : gmap string (list DiskLocation) :=
  fold_left (λ m loc, addDiskToMap m sc (diskID loc) (diskNamePath loc) (directoryPath loc))
    locs m.

(** *** The materializer *)

(** The directory of a storage class, the place of the link for an
    assignment in it and what the link points to: the values of
    [symLinkDirPath] and [symLinkPath] in [symLinkDisks] and the first
    argument of its call of [os.Symlink]. *)
Definition classDir (d : DiskMaker) (storageClass : string) : string :=
  path.Join (symlinkLocation d) storageClass.

Definition linkPath (d : DiskMaker) (storageClass : string) (loc : DiskLocation) : string :=
  path.Join (classDir d storageClass) (filepath.Base (diskNamePath loc)).

Definition linkTargetOf (loc : DiskLocation) : string :=
  if bool_decide (diskID loc ≠ "") then diskID loc else diskNamePath loc.

(** The two events of the device branch. *)
Definition linkFailedEvent (d : DiskMaker) (sc : string) (loc : DiskLocation) : event :=
  newEvent ErrorFindingMatchingDisk
    ("error creating symlink " +:+ linkPath d sc loc +:+ ": <nil>") (diskNamePath loc).

Definition linkedEvent (loc : DiskLocation) : event :=
  newSuccessEvent FoundMatchingDisk
    ("found matching disk " +:+ filepath.Base (diskNamePath loc)) (diskNamePath loc).

(** Every assignment of the map is a device whose class directory and
    link are there. *)
Definition materialized (d : DiskMaker) (deviceMap : gmap string (list DiskLocation))
    (h : Host) : Prop :=
  ∀ sc deviceArray loc, deviceMap !! sc = Some deviceArray → loc ∈ deviceArray →
    directoryPath loc = ""
    ∧ os.Stat h (classDir d sc) = inl Directory
    ∧ fileExists h (linkPath d sc loc) = true.

(** *** The events of a cycle *)

(** The one event for a cycle that matched nothing. *)
Definition emptyMatch : event :=
  newEvent ErrorFindingMatchingDisk "found empty matching device list" "".

(** An event reported for one identifier, directory, class or device. *)
Definition itemEvent (e : event) : Prop :=
  message e ≠ message emptyMatch
  ∧ eventReason e ≠ ErrorReadingBlockList
  ∧ String.prefix "eror finding matching disks: " (message e) = false.

(** ** A node to run the daemon on *)

(** A node with the disk [sdb], unmounted and known under one
    identifier; [sda] carries the root file system.  A regular file
    lies where a shared directory could be configured. *)
Definition hNode : Host :=
  MkHost {[ "/" := Directory; "/mnt" := Directory; "/mnt/local-storage" := Directory;
            "/dev" := Directory; "/dev/sdb" := BlockDevice; "/dev/disk" := Directory;
            "/dev/disk/by-id" := Directory;
            "/dev/disk/by-id/ata-NEW" := SymbolicLink "../../sdb";
            "/rootfs" := Directory; "/rootfs/data" := Regular ]}
         ∅
         ("sda /" +:+ String "010"%char "sdb", None)
         (["/dev/disk/by-id/ata-NEW"], None).

(** The node after a cycle that linked [sdb] for the class [ssd]. *)
Definition hLinked : Host :=
  withNodes hNode
    (<["/mnt/local-storage/ssd/sdb" := SymbolicLink "/dev/disk/by-id/ata-NEW"]>
       (<["/mnt/local-storage/ssd" := Directory]> (nodes hNode))).

(** The node with a link left from a disk that was replaced: its target
    is gone. *)
Definition hStale : Host :=
  withNodes hNode
    (<["/mnt/local-storage/ssd/sdb" := SymbolicLink "/dev/disk/by-id/ata-OLD"]>
       (<["/mnt/local-storage/ssd" := Directory]> (nodes hNode))).

Definition dStorage : DiskMaker := MkDiskMaker "/etc/diskmaker/config" "/mnt/local-storage".

Definition sdb : DiskLocation := MkDiskLocation "/dev/sdb" "/dev/disk/by-id/ata-NEW" "".

Definition shared1 : DiskLocation := MkDiskLocation "" "" "/rootfs/shared1".

(** The class [ssd] asks for [sdb] by name and by identifier. *)
Definition ssdDisks : Disks :=
  MkDisks {[ "/dev/sdb" ]} {[ "/dev/disk/by-id/ata-NEW" ]} ["shared1"].

Definition cfgSsd : DiskConfig := MkDiskConfig {[ "ssd" := ssdDisks ]}.

Definition cfgNone : DiskConfig := MkDiskConfig ∅.

Definition idle (h : Host) : World := MkWorld h [] [].

(** The class [ssd] asks for [sdb] by name only; for an identifier whose
    link is not there; the class [nfs] asks for a shared directory. *)
Definition cfgByName : DiskConfig :=
  MkDiskConfig {[ "ssd" := MkDisks {[ "/dev/sdb" ]} ∅ [] ]}.

Definition cfgBroken : DiskConfig :=
  MkDiskConfig {[ "ssd" := MkDisks ∅ {[ "/dev/disk/by-id/ata-X" ]} [] ]}.

Definition cfgShared : DiskConfig :=
  MkDiskConfig {[ "nfs" := MkDisks ∅ ∅ ["shared1"] ]}.

(** The node without the listing tool. *)
Definition hNoListing : Host :=
  MkHost (nodes hNode) ∅ ("", Some (ErrorString "exec: lsblk: executable file not found"))
         (globbed hNode).

(** *** The pass over the device names, told by name *)

(** The identifier path [id] leads to a device called [diskName]: the
    test of the loop of [findStableDeviceID]. *)
Definition leadsTo (h : Host) (diskName id : string) : bool :=
  match filepath.EvalSymlinks h id with
  | inl diskDevPath => String.eqb (filepath.Base diskDevPath) diskName
  | inr _ => false
  end.

(** The assignment a device name yields: one when its base name is
    among the unmounted devices, with the identifier that
    [findStableDeviceID] found or none. *)
Definition nameAssignment (h : Host) (deviceSet : gset string) (allDiskIds : list string)
    (diskName : string) : option DiskLocation :=
  if decide (filepath.Base diskName ∈ deviceSet)
  then Some (MkDiskLocation diskName
               (findStableDeviceID h (filepath.Base diskName) allDiskIds).1 "")
  else None.

(** *** What the matcher may assign *)

(** An assignment for a device: no directory, a device path whose base
    name is among the unmounted devices, and an identifier that is empty
    or leads on the host to a device of that base name. *)
Definition deviceAssignment (deviceSet : gset string) (h : Host) (loc : DiskLocation) : Prop :=
  directoryPath loc = ""
  ∧ filepath.Base (diskNamePath loc) ∈ deviceSet
  ∧ (diskID loc ≠ "" →
     ∃ diskDevPath, filepath.EvalSymlinks h (diskID loc) = inl diskDevPath
       ∧ filepath.Base diskDevPath = filepath.Base (diskNamePath loc)).

(** An assignment for a shared directory: no device, no identifier, and
    a path that is a directory on the host. *)
Definition directoryAssignment (h : Host) (loc : DiskLocation) : Prop :=
  diskNamePath loc = "" ∧ diskID loc = ""
  ∧ os.Stat h (directoryPath loc) = inl Directory.

(** Every assignment of the map is one of the two. *)
Definition sound (deviceSet : gset string) (m : gmap string (list DiskLocation)) (w : World)
  : Prop :=
  ∀ sc loc, loc ∈ assignmentsOf m sc →
    deviceAssignment deviceSet (host w) loc ∨ directoryAssignment (host w) loc.

(** *** What a cycle may do *)

(** The changing calls made on the way all satisfy [P] and the events
    reported all satisfy [Q]. *)
Definition acts (P : Syscall → Prop) (Q : event → Prop) : relation World :=
  λ w w', attempts P w w' ∧ reports Q w w'.

Definition isError (e : event) : Prop := eventType e = ErrorEvent.

(** The two kinds of assignment, told by their paths only. *)
Definition deviceOrDirectory (loc : DiskLocation) : Prop :=
  directoryPath loc = "" ∨ (diskNamePath loc = "" ∧ directoryPath loc ≠ "").

(** A device assignment of the class [sc] that the configuration asks
    for, under a name or under an identifier, and whose device is among
    the unmounted ones. *)
Definition configuredDevice (diskConfig : DiskConfig) (unmounted : gset string)
    (sc : string) (loc : DiskLocation) : Prop :=
  ∃ disks, ConfigDisks diskConfig !! sc = Some disks
    ∧ (diskNamePath loc ∈ DeviceNames disks ∨ diskID loc ∈ DeviceIDs disks)
    ∧ directoryPath loc = ""
    ∧ filepath.Base (diskNamePath loc) ∈ unmounted.

(** *** Paths under the root file system *)

(** The elements of a path that name something: neither empty nor
    [.]. *)
Definition pathNames (p : string) : list string :=
  filter (λ e, e ≠ "" ∧ e ≠ ".") (strings.Split p "/"%char).

(** *** Hexadecimal digits *)

(** The value of a lower-case hexadecimal digit. *)
Definition digitValue (c : ascii) : N :=
  let n := N_of_ascii c in
  if (n <? 58)%N then n - 48 else n - 87.

(** The number a string of hexadecimal digits writes, after [v]. *)
Fixpoint hexValue (v : N) (s : string) : N :=
  match s with
  | EmptyString => v
  | String c rest => hexValue (16 * v + digitValue c) rest
  end.

(** *** The matcher on devices, told by class *)

(** The device assignments of a class with the policy [disks]: those of
    its names, in the order of [List], then those of its identifiers. *)
Definition classAssignments (h : Host) (deviceSet : gset string) (allDiskIds : list string)
    (disks : Disks) : list DiskLocation :=
  omap (nameAssignment h deviceSet allDiskIds) (sets.List (DeviceNames disks))
  ++ omap (idAssignment h deviceSet) (sets.List (DeviceIDs disks)).

(** The entry of the map for a list of assignments: none when the list
    is empty. *)
Definition entryOf (locs : list DiskLocation) : option (list DiskLocation) :=
  match locs with
  | [] => None
  | _ => Some locs
  end.

(** An assignment the matcher returned in [deviceMap] for the class
    [sc], which is a configured device among the unmounted ones, and
    whose identifier, when it has one, leads on the host [h] to a device
    of the same base name. *)
Definition matchedDevice (diskConfig : DiskConfig) (unmounted : gset string)
    (deviceMap : gmap string (list DiskLocation)) (h : Host)
    (sc : string) (loc : DiskLocation) : Prop :=
  (∃ deviceArray, deviceMap !! sc = Some deviceArray ∧ loc ∈ deviceArray)
  ∧ configuredDevice diskConfig unmounted sc loc
  ∧ (diskID loc ≠ "" →
     ∃ diskDevPath, filepath.EvalSymlinks h (diskID loc) = inl diskDevPath
       ∧ filepath.Base diskDevPath = filepath.Base (diskNamePath loc)).

(** *** Paths that are not there *)

(** Nothing lies at [p], not even a link, and above [p] there is
    nothing but directories that the daemon may reach: [os.Stat]
    answers that the file does not exist, and [os.IsNotExist] agrees. *)
Definition notThere (h : Host) (p : string) : Prop :=
  os.Lstat h p = inr (PathError "lstat" p ENOENT)
  ∧ Forall (λ above, (above ∉ denied h)
                     ∧ (nodes h !! above = None ∨ nodes h !! above = Some Directory))
      (os.ancestorsOf p).

(** * Properties *)

(** ** The library functions on examples *)

Example Split_lines_example : strings.Split ("sda" +:+ String "010"%char "sdb /mnt") "010"%char = ["sda"; "sdb /mnt"].
Proof. reflexivity. Qed.

Example Split_padded_example : strings.Split "sda1   /boot" " "%char = ["sda1"; ""; ""; "/boot"].
Proof. reflexivity. Qed.

Example TrimSpace_both_example : strings.TrimSpace (String "009"%char " sdb  ") = "sdb".
Proof. reflexivity. Qed.

Example TrimSpace_nbsp_example : strings.TrimSpace (String "194"%char (String "160"%char "x ")) = "x".
Proof. reflexivity. Qed.

Example Clean_dots_example : path.Clean "/rootfs//a/./b/../c/" = "/rootfs/a/c".
Proof. reflexivity. Qed.

Example Clean_relative_example : path.Clean "a/../../b" = "../b".
Proof. reflexivity. Qed.

Example Clean_root_up_example : path.Clean "/../x" = "/x".
Proof. reflexivity. Qed.

Example Join_class_example : path.Join "/mnt/local-storage" "ssd" = "/mnt/local-storage/ssd".
Proof. reflexivity. Qed.

Example Base_device_example : filepath.Base "/dev/sdb" = "sdb".
Proof. reflexivity. Qed.

Example Base_empty_example : filepath.Base "" = ".".
Proof. reflexivity. Qed.

Example Base_slashes_example : filepath.Base "//" = "/".
Proof. reflexivity. Qed.

(** ** Strings *)

Lemma append_cons c s t : String c s +:+ t = String c (s +:+ t).
Proof. reflexivity. Qed.

Lemma append_nil t : "" +:+ t = t.
Proof. reflexivity. Qed.

Lemma append_assoc (a b c : string) : (a +:+ b) +:+ c = a +:+ (b +:+ c).
Proof. induction a as [|x a IH]; [done|]. rewrite !append_cons. by f_equal. Qed.

Lemma Split_nonempty s sep : strings.Split s sep ≠ [].
Proof.
  induction s as [|c s IH]; simpl; [done|].
  destruct (Ascii.eqb c sep); [done|]. by destruct (strings.Split s sep).
Qed.

Lemma Split_append s t sep :
  strings.Split (s +:+ String sep t) sep = strings.Split s sep ++ strings.Split t sep.
Proof.
  induction s as [|c s IH].
  - rewrite append_nil. simpl. by rewrite Ascii.eqb_refl.
  - rewrite append_cons. simpl. destruct (Ascii.eqb c sep); [by rewrite IH|].
    rewrite IH. pose proof (Split_nonempty s sep).
    by destruct (strings.Split s sep).
Qed.

Lemma Split_plain s sep : has sep s = false → strings.Split s sep = [s].
Proof.
  induction s as [|c s IH]; simpl; [done|].
  intros [Hc Hs]%orb_false_iff. rewrite Hc, IH; done.
Qed.

Lemma Split_fields_plain s sep : Forall (λ e, has sep e = false) (strings.Split s sep).
Proof.
  induction s as [|c s IH]; simpl; [by repeat constructor|].
  destruct (Ascii.eqb c sep) eqn:Hc; [by constructor|].
  pose proof (Split_nonempty s sep).
  destruct (strings.Split s sep) as [|f fs]; [done|].
  inversion_clear IH. constructor; [|done]. simpl. by rewrite Hc.
Qed.

Lemma Split_Join (elems : list string) sep :
  elems ≠ [] → Forall (λ e, has sep e = false) elems →
  strings.Split (strings.Join elems sep) sep = elems.
Proof.
  induction elems as [|e more IH]; [done|]. intros _ Hall.
  inversion_clear Hall as [|?? He Hmore].
  destruct more as [|e' more]; [by apply Split_plain|].
  change (strings.Join (e :: e' :: more) sep)
    with (e +:+ String sep (strings.Join (e' :: more) sep)).
  rewrite Split_append, IH, Split_plain; done.
Qed.

(** *** What [TrimSpace] leaves at the two ends *)

Lemma rev_app_append s acc : String.rev_app s acc = String.rev_app s "" +:+ acc.
Proof.
  revert acc. induction s as [|a s IH]; intros acc; simpl; [done|].
  rewrite (IH (String a acc)), (IH (String a "")). by rewrite append_assoc.
Qed.

Lemma rev_cons a s : String.rev (String a s) = String.rev s +:+ String a "".
Proof. unfold String.rev. simpl. apply rev_app_append. Qed.

Lemma append_empty_r s : s +:+ "" = s.
Proof. induction s as [|a s IH]; [done|]. rewrite append_cons. by f_equal. Qed.

Lemma rev_append s t : String.rev (s +:+ t) = String.rev t +:+ String.rev s.
Proof.
  induction s as [|a s IH].
  - by rewrite append_nil, append_empty_r.
  - by rewrite append_cons, !rev_cons, IH, append_assoc.
Qed.

Lemma rev_rev s : String.rev (String.rev s) = s.
Proof.
  induction s as [|a s IH]; [done|]. by rewrite rev_cons, rev_append, IH.
Qed.

Lemma trimLeft_start s : startsWith " "%char (strings.trimLeft s) = false.
Proof.
  assert (H : ∀ n s, String.length s ≤ n → startsWith " "%char (strings.trimLeft s) = false);
    [|by apply (H (String.length s))].
  clear s. induction n as [|n IH]; intros s Hn.
  { destruct s; [done|]. simpl in Hn. lia. }
  destruct s as [|a s1]; [done|]. simpl in *.
  destruct (strings.asciiSpace a) eqn:Ha; [apply IH; lia|].
  assert (Hsp : Ascii.eqb a " "%char = false).
  { destruct (Ascii.eqb_spec a " "%char) as [->|]; done. }
  destruct s1 as [|b s2]; [done|]. simpl in Hn.
  destruct (strings.space2 a b); [apply IH; lia|].
  destruct s2 as [|c s3]; [done|]. simpl in Hn.
  destruct (strings.space3 a b c); [apply IH; lia|done].
Qed.

Lemma trimLeftRev_start s : startsWith " "%char (strings.trimLeftRev s) = false.
Proof.
  assert (H : ∀ n s, String.length s ≤ n →
                startsWith " "%char (strings.trimLeftRev s) = false);
    [|by apply (H (String.length s))].
  clear s. induction n as [|n IH]; intros s Hn.
  { destruct s; [done|]. simpl in Hn. lia. }
  destruct s as [|a s1]; [done|]. simpl in *.
  destruct (strings.asciiSpace a) eqn:Ha; [apply IH; lia|].
  assert (Hsp : Ascii.eqb a " "%char = false).
  { destruct (Ascii.eqb_spec a " "%char) as [->|]; done. }
  destruct s1 as [|b s2]; [done|]. simpl in Hn.
  destruct (strings.space2 b a); [apply IH; lia|].
  destruct s2 as [|c s3]; [done|]. simpl in Hn.
  destruct (strings.space3 c b a); [apply IH; lia|done].
Qed.

Lemma trimLeftRev_suffix s : ∃ dropped, s = dropped +:+ strings.trimLeftRev s.
Proof.
  assert (H : ∀ n s, String.length s ≤ n → ∃ dropped, s = dropped +:+ strings.trimLeftRev s);
    [|by apply (H (String.length s))].
  clear s. induction n as [|n IH]; intros s Hn.
  { destruct s; [by exists ""|]. simpl in Hn. lia. }
  destruct s as [|a s1]; [by exists ""|]. simpl in *.
  destruct (strings.asciiSpace a).
  { destruct (IH s1) as [dr Hdr]; [lia|]. exists (String a dr). by rewrite append_cons, <- Hdr. }
  destruct s1 as [|b s2]; [by exists ""|]. simpl in Hn.
  destruct (strings.space2 b a).
  { destruct (IH s2) as [dr Hdr]; [lia|]. exists (String a (String b dr)).
    by rewrite !append_cons, <- Hdr. }
  destruct s2 as [|c s3]; [by exists ""|]. simpl in Hn.
  destruct (strings.space3 c b a); [|by exists ""].
  destruct (IH s3) as [dr Hdr]; [lia|]. exists (String a (String b (String c dr))).
  by rewrite !append_cons, <- Hdr.
Qed.

(** The trimmed text neither starts nor ends with a space. *)
Lemma TrimSpace_ends s :
  startsWith " "%char (strings.TrimSpace s) = false
  ∧ startsWith " "%char (String.rev (strings.TrimSpace s)) = false.
Proof.
  unfold strings.TrimSpace. split; [|by rewrite rev_rev, trimLeftRev_start].
  destruct (trimLeftRev_suffix (String.rev (strings.trimLeft s))) as [dropped Hd].
  apply (f_equal String.rev) in Hd. rewrite rev_rev, rev_append in Hd.
  pose proof (trimLeft_start s) as Hs. rewrite Hd in Hs.
  by destruct (String.rev (strings.trimLeftRev _)).
Qed.

Lemma Split_first a rest sep :
  Ascii.eqb a sep = false →
  ∃ field fields, strings.Split (String a rest) sep = String a field :: fields.
Proof.
  intros Ha. simpl. rewrite Ha. pose proof (Split_nonempty rest sep).
  destruct (strings.Split rest sep) as [|f fs]; [done|]. by exists f, fs.
Qed.

Lemma Split_snoc s a sep :
  Ascii.eqb a sep = false →
  ∃ fields field, strings.Split (s +:+ String a "") sep = fields ++ [String.app field (String a "")].
Proof.
  intros Ha. induction s as [|c s (fields & field & IH)].
  - exists [], "". simpl. by rewrite Ha.
  - rewrite append_cons. simpl. rewrite IH. destruct (Ascii.eqb c sep).
    + by exists ("" :: fields), field.
    + destruct fields as [|f fs]; simpl.
      * by exists [], (String c field).
      * by exists (String c f :: fs), field.
Qed.

(** A line has exactly one non-empty field when it has exactly one
    field and that field is not empty: with more fields the first and
    the last are not empty, as the line is trimmed. *)
Lemma one_nonempty_field line :
  length (filter (λ field, field ≠ "") (lineFields line)) = 1
  ↔ ∃ field, lineFields line = [field] ∧ field ≠ "".
Proof.
  split.
  2:{ intros (field & -> & Hne). by rewrite filter_cons_True. }
  unfold lineFields. destruct (TrimSpace_ends line) as [Hfirst Hlast].
  destruct (strings.TrimSpace line) as [|a rest] eqn:Hout.
  { intros Hone. vm_compute in Hone. discriminate Hone. }
  simpl in Hfirst. intros Hone.
  destruct (Split_first a rest " "%char Hfirst) as (field & fields & Hsplit).
  destruct fields as [|second fields]; [rewrite Hsplit; by exists (String a field)|].
  destruct (String.rev (String a rest)) as [|z front] eqn:Hrev.
  { apply (f_equal String.rev) in Hrev. by rewrite rev_rev in Hrev. }
  simpl in Hlast.
  apply (f_equal String.rev) in Hrev. rewrite rev_rev, rev_cons in Hrev.
  destruct (Split_snoc (String.rev front) z " "%char Hlast) as (before & lastField & Hsnoc).
  rewrite <- Hrev, Hsplit in Hsnoc. rewrite Hsplit in Hone.
  destruct before as [|b before]; [done|]. simpl in Hsnoc.
  injection Hsnoc as _ Htail. rewrite Htail in Hone.
  rewrite filter_cons_True in Hone by done.
  rewrite filter_app, length_cons, length_app in Hone.
  rewrite (filter_cons_True _ (String.app lastField (String z ""))) in Hone.
  - simpl in Hone. lia.
  - by destruct lastField.
Qed.

(** ** Unmounted devices *)

Lemma one_field_iff (fields : list string) (x : string) :
  (length fields =? 1) && (0 <? String.length (nth 0 fields "")) = true ∧ nth 0 fields "" = x
  ↔ fields = [x] ∧ x ≠ "".
Proof.
  split.
  - intros [Hc <-]. apply andb_true_iff in Hc as [Hl Hn].
    apply Nat.eqb_eq in Hl. apply Nat.ltb_lt in Hn.
    destruct fields as [|f [|g fs]]; simplify_eq/=.
    split; [done|]. intros ->. simpl in Hn. lia.
  - intros [-> Hx]. simpl. split; [|done].
    destruct x; [done|]. simpl. done.
Qed.

Lemma findNewDisksLine_one deviceSet line field :
  lineFields line = [field] → field ≠ "" →
  findNewDisksLine deviceSet line = {[ field ]} ∪ deviceSet.
Proof.
  intros Hf Hne. unfold findNewDisksLine. fold (lineFields line).
  destruct (proj2 (one_field_iff (lineFields line) field) (conj Hf Hne)) as [-> ->]. done.
Qed.

Lemma findNewDisksLine_none deviceSet line :
  (∀ field, lineFields line = [field] → field = "") →
  findNewDisksLine deviceSet line = deviceSet.
Proof.
  intros Hno. unfold findNewDisksLine. fold (lineFields line).
  destruct ((length (lineFields line) =? 1) && _) eqn:Hc; [|done].
  destruct (proj1 (one_field_iff (lineFields line) _) (conj Hc eq_refl)) as [Hf Hne].
  by apply Hno in Hf.
Qed.

Lemma findNewDisks_fold (deviceLines : list string) (acc : gset string) (x : string) :
  x ∈ fold_left findNewDisksLine deviceLines acc
  ↔ x ∈ acc ∨ ∃ line, line ∈ deviceLines ∧ lineFields line = [x] ∧ x ≠ "".
Proof.
  revert acc. induction deviceLines as [|l ls IH]; intros acc; simpl.
  - split; [auto|]. intros [?|(? & ?%elem_of_nil & _)]; done.
  - rewrite IH. split.
    + intros [Hx|(line & ? & ?)]; [|right; exists line; split; [by right|done]].
      unfold findNewDisksLine in Hx. fold (lineFields l) in Hx.
      destruct ((length (lineFields l) =? 1) && _) eqn:Hc; [|by left].
      apply elem_of_union in Hx as [Hx%elem_of_singleton|?]; [|by left].
      right. exists l. split; [left|]. apply one_field_iff. by split.
    + intros [?|(line & [->|?]%elem_of_cons & Hf & Hne)]; [|left|right; eauto].
      * left. unfold findNewDisksLine. destruct (_ && _); [|done].
        apply elem_of_union. by right.
      * rewrite (findNewDisksLine_one _ _ _ Hf Hne).
        apply elem_of_union. left. by apply elem_of_singleton.
Qed.

(** C2. For every text of the block-device listing: a line whose trimmed
    text splits on single spaces into exactly one non-empty field is a
    line of one field, not empty, and has that field inserted into the
    device set; a line with no non-empty field and a line with a
    non-empty second field (a mount point) leave the set as it is; the
    set holds exactly the single fields of the lines of the first
    kind.  Hence a device all of whose lines carry a non-empty mount
    point is not in the set. *)
Theorem findNewDisks_unmounted (content : string) :
  let unmountedDevices := (findNewDisks content).1 in
  let deviceLines := strings.Split content "010"%char in
  (∀ line, length (filter (λ field, field ≠ "") (lineFields line)) = 1
           ↔ ∃ field, lineFields line = [field] ∧ field ≠ "")
  ∧ (∀ deviceSet line field, lineFields line = [field] → field ≠ "" →
     findNewDisksLine deviceSet line = {[ field ]} ∪ deviceSet)
  ∧ (∀ deviceSet line, Forall (λ field, field = "") (lineFields line) →
       findNewDisksLine deviceSet line = deviceSet)
  ∧ (∀ deviceSet line mountPoint, lineFields line !! 1 = Some mountPoint → mountPoint ≠ "" →
       findNewDisksLine deviceSet line = deviceSet)
  ∧ (∀ device, device ∈ unmountedDevices ↔
       ∃ line, line ∈ deviceLines ∧ lineFields line = [device] ∧ device ≠ "")
  ∧ (∀ device,
       (∀ line, line ∈ deviceLines → head (lineFields line) = Some device →
          ∃ mountPoint, lineFields line !! 1 = Some mountPoint ∧ mountPoint ≠ "") →
       device ∉ unmountedDevices).
Proof.
  simpl. unfold findNewDisks. simpl.
  split; [apply one_nonempty_field|]. split; [|split; [|split; [|split]]].
  - intros. by apply findNewDisksLine_one.
  - intros deviceSet line Hall. apply findNewDisksLine_none.
    intros field Hf. rewrite Hf in Hall. by inversion Hall.
  - intros deviceSet line mp Hl _. apply findNewDisksLine_none.
    intros field Hf. rewrite Hf in Hl. done.
  - intros device. rewrite findNewDisks_fold. split; [intros [?|?]; [set_solver|done]|auto].
  - intros device Hall [Hin|(line & Hin & Hf & Hne)]%findNewDisks_fold; [set_solver|].
    destruct (Hall line Hin) as (mp & Hmp & _); [by rewrite Hf|].
    rewrite Hf in Hmp. done.
Qed.

Lemma findNewDisks_unmounted_witness :
  "sdb" ∈ (findNewDisks (lsblk hNode).1).1 ∧ "sda" ∉ (findNewDisks (lsblk hNode).1).1.
Proof.
  destruct (findNewDisks_unmounted (lsblk hNode).1) as (_ & _ & _ & _ & Hin & Hout).
  change (strings.Split (lsblk hNode).1 "010"%char) with ["sda /"; "sdb"] in Hin, Hout.
  split.
  - apply Hin. exists "sdb". split; [|by split].
    apply list_elem_of_further, list_elem_of_here.
  - apply Hout. intros line Hline Hhead.
    apply elem_of_cons in Hline as [->|Hline].
    + by exists "/".
    + apply list_elem_of_singleton in Hline as ->. discriminate Hhead.
Defined.

(** ** Paths *)

Lemma eqb_false (a b : string) : a ≠ b → String.eqb a b = false.
Proof. by intros ?%String.eqb_neq. Qed.

Lemma cleanStep_plain rooted st e :
  plainName e → path.cleanStep rooted st e = path.Cleaned (path.ups st) (e :: path.kept st).
Proof.
  intros (H1 & H2 & H3 & _). unfold path.cleanStep.
  by rewrite !eqb_false.
Qed.

Lemma cleanStep_wellKept rooted st e :
  has "/"%char e = false → wellKept rooted st → wellKept rooted (path.cleanStep rooted st e).
Proof.
  intros He [Hk Hr]. unfold path.cleanStep.
  destruct (String.eqb_spec e ""); simpl; [done|].
  destruct (String.eqb_spec e "."); simpl; [done|].
  destruct (String.eqb_spec e "..").
  - destruct (path.kept st) as [|top below] eqn:Hkept.
    + destruct rooted; [by split; [rewrite Hkept|]|].
      split; simpl; [constructor|done].
    + split; simpl; [by inversion Hk|done].
  - split; simpl; [|done]. constructor; [|done]. by repeat split.
Qed.

Lemma fold_cleanStep_wellKept rooted elems st :
  Forall (λ e, has "/"%char e = false) elems → wellKept rooted st →
  wellKept rooted (fold_left (path.cleanStep rooted) elems st).
Proof.
  revert st. induction elems as [|e more IH]; intros st Hall Hst; simpl; [done|].
  inversion_clear Hall. apply IH; [done|]. by apply cleanStep_wellKept.
Qed.

Lemma fold_cleanStep_names rooted names k below :
  Forall plainName names →
  fold_left (path.cleanStep rooted) names (path.Cleaned k below)
  = path.Cleaned k (rev names ++ below).
Proof.
  revert below. induction names as [|e more IH]; intros below Hall; simpl; [done|].
  inversion_clear Hall. rewrite cleanStep_plain by done. simpl.
  rewrite IH by done. by rewrite <- app_assoc.
Qed.

Lemma fold_cleanStep_ups k j :
  fold_left (path.cleanStep false) (replicate k "..") (path.Cleaned j [])
  = path.Cleaned (j + k) [].
Proof.
  revert j. induction k as [|k IH]; intros j; simpl; [by rewrite Nat.add_0_r|].
  unfold path.cleanStep at 2. simpl. rewrite IH. f_equal. lia.
Qed.

Lemma plainName_not_rooted e more sep :
  plainName e → path.isRooted (strings.Join (e :: more) sep) = false.
Proof.
  intros (Hne & _ & _ & Hs). destruct e as [|c e]; [done|].
  simpl in Hs. apply orb_false_iff in Hs as [Hc _].
  assert (c ≠ "/"%char) by (intros ->; by rewrite Ascii.eqb_refl in Hc).
  destruct more; simpl; destruct c as [[] [] [] [] [] [] [] []]; done.
Qed.

Lemma Join_nonempty e more sep : e ≠ "" → strings.Join (e :: more) sep ≠ "".
Proof. destruct e; [done|]. intros _. destruct more; [done|]. simpl. by rewrite append_cons. Qed.

Lemma Clean_nonempty p : path.Clean p ≠ "".
Proof.
  unfold path.Clean. destruct (String.eqb p ""); [done|].
  unfold path.render. destruct (path.isRooted p); [done|].
  by destruct (String.eqb_spec (strings.Join
    (replicate (path.ups (fold_left (path.cleanStep false) (strings.Split p "/"%char) (path.Cleaned 0 [])))
       ".." ++ rev (path.kept (fold_left (path.cleanStep false) (strings.Split p "/"%char) (path.Cleaned 0 []))))
    "/"%char) "").
Qed.

Lemma Clean_rooted s :
  path.Clean (String "/"%char s)
  = path.render true (fold_left (path.cleanStep true) (strings.Split s "/"%char) (path.Cleaned 0 [])).
Proof. reflexivity. Qed.

Lemma Clean_relative s :
  s ≠ "" → path.isRooted s = false →
  path.Clean s
  = path.render false (fold_left (path.cleanStep false) (strings.Split s "/"%char) (path.Cleaned 0 [])).
Proof. intros Hs Hr. unfold path.Clean. by rewrite (eqb_false _ _ Hs), Hr. Qed.

Lemma fold_cleanStep_dot rooted elems st :
  fold_left (path.cleanStep rooted) (elems ++ ["."]) st
  = fold_left (path.cleanStep rooted) elems st.
Proof. by rewrite fold_left_app. Qed.

(** Cleaning the cleaned path with a [.] element added gives the
    cleaned path. *)
Lemma Clean_dot p : path.Clean (path.Clean p +:+ "/.") = path.Clean p.
Proof.
  unfold path.Clean at 2 3. destruct (String.eqb_spec p "") as [->|Hp]; [done|].
  set (rooted := path.isRooted p).
  set (st := fold_left _ _ _).
  assert (Hst : wellKept rooted st).
  { apply fold_cleanStep_wellKept; [apply Split_fields_plain|]. by split; [constructor|]. }
  destruct st as [k kept]. destruct Hst as [Hk Hr]. simpl in Hk, Hr.
  assert (Hrev : Forall plainName (rev kept)) by (by apply Forall_rev).
  assert (Hplain : Forall (λ e, has "/"%char e = false) (rev kept)).
  { eapply Forall_impl; [exact Hrev|]. by intros ? (_ & _ & _ & ?). }
  unfold path.render. cbn [path.ups path.kept]. destruct rooted.
  - rewrite Hr by done. cbn [replicate app].
    rewrite append_cons, Clean_rooted.
    destruct (rev kept) as [|e more] eqn:Hnames; [reflexivity|].
    rewrite <- Hnames in *.
    rewrite Split_append, Split_Join by (done || by rewrite Hnames).
    change (strings.Split "." "/"%char) with ["."].
    rewrite fold_cleanStep_dot, fold_cleanStep_names by done.
    unfold path.render. cbn [path.ups path.kept replicate app].
    by rewrite rev_involutive, app_nil_r.
  - destruct (replicate k ".." ++ rev kept) as [|e more] eqn:Hl; [reflexivity|].
    assert (He : plainName e ∨ e = "..").
    { destruct k; simpl in Hl.
      - rewrite Hl in Hrev. inversion Hrev. by left.
      - right. congruence. }
    assert (Hne : e ≠ "") by (destruct He as [(? & _)| ->]; done).
    pose proof (Join_nonempty e more "/"%char Hne) as Hbody.
    rewrite (eqb_false _ _ Hbody).
    assert (Hne2 : strings.Join (e :: more) "/"%char +:+ "/." ≠ "").
    { destruct (strings.Join (e :: more) "/"%char); [done|]. by rewrite append_cons. }
    assert (Hroot : path.isRooted (strings.Join (e :: more) "/"%char +:+ "/.") = false).
    { destruct e as [|c e]; [done|].
      assert (c ≠ "/"%char).
      { destruct He as [(_ & _ & _ & Hs)|Heq].
        - simpl in Hs. apply orb_false_iff in Hs as [Hc _].
          intros ->. by rewrite Ascii.eqb_refl in Hc.
        - by injection Heq as -> _. }
      destruct more; simpl; destruct c as [[] [] [] [] [] [] [] []]; done. }
    rewrite Clean_relative by done.
    rewrite <- Hl in *.
    rewrite Split_append, Split_Join.
    2:{ by rewrite Hl. }
    2:{ apply Forall_app. split; [|done]. apply Forall_replicate. reflexivity. }
    change (strings.Split "." "/"%char) with ["."].
    rewrite fold_cleanStep_dot, fold_left_app, fold_cleanStep_ups, fold_cleanStep_names by done.
    unfold path.render. cbn [path.ups path.kept Nat.add].
    rewrite rev_involutive, app_nil_r.
    by rewrite (eqb_false _ _ Hbody).
Qed.

Lemma Join_dot a b : path.Join a b ≠ "" → path.Join (path.Join a b) "." = path.Join a b.
Proof.
  intros Hne. unfold path.Join at 1. rewrite (eqb_false _ _ Hne).
  unfold path.Join in *. destruct (String.eqb a "").
  - destruct (String.eqb b ""); [done|]. apply Clean_dot.
  - apply Clean_dot.
Qed.

(** ** The host *)

Lemma hostGrows_preorder : PreOrder hostGrows.
Proof.
  split.
  - by intros h.
  - intros h1 h2 h3 (? & ? & ? & ?) (? & ? & ? & ?).
    repeat split; [by etrans|congruence..].
Qed.
Global Existing Instance hostGrows_preorder.

Lemma creatable_fresh h p :
  os.creatable h p = None →
  p ≠ "" ∧ (path.Clean p ∉ denied h) ∧ nodes h !! path.Clean p = None.
Proof.
  unfold os.creatable. destruct (String.eqb_spec p ""); [done|].
  destruct (decide (path.Clean p ∈ denied h)); [done|].
  destruct (decide (is_Some (nodes h !! path.Clean p))) as [|Hn]; [done|].
  intros _. repeat split; [done..|]. by apply eq_None_not_Some.
Qed.

Lemma insert_fresh_grows h key node :
  nodes h !! key = None → hostGrows h (withNodes h (<[key := node]> (nodes h))).
Proof. intros Hn. repeat split. simpl. by apply insert_subseteq. Qed.

Lemma Mkdir_grows h p : hostGrows h (os.Mkdir h p).1.
Proof.
  unfold os.Mkdir. destruct (os.creatable h p) eqn:Hc; simpl; [done|].
  apply creatable_fresh in Hc as (_ & _ & ?). by apply insert_fresh_grows.
Qed.

Lemma OsSymlink_grows h old new : hostGrows h (os.Symlink h old new).1.
Proof.
  unfold os.Symlink. destruct (os.creatable h new) eqn:Hc; simpl; [done|].
  apply creatable_fresh in Hc as (_ & _ & ?). by apply insert_fresh_grows.
Qed.

Lemma mkdirAllChain_grows chain h : hostGrows h (os.mkdirAllChain chain h).1.
Proof.
  induction chain as [|p above IH]; simpl; [done|].
  destruct (os.Stat h p) as [[]|]; simpl; try done.
  destruct (os.mkdirAllChain above h) as [h1 [err|]]; simpl in *; [done|].
  pose proof (Mkdir_grows h1 p) as Hm.
  destruct (os.Mkdir h1 p) as [h2 [err|]]; simpl in *.
  - destruct (os.Lstat h2 p) as [[]|]; simpl; by etrans.
  - by etrans.
Qed.

Lemma MkdirAll_grows h p : hostGrows h (os.MkdirAll h p).1.
Proof. apply mkdirAllChain_grows. Qed.

Lemma resolve_grows links h h' p r :
  hostGrows h h' → resolve links h p = r → r ≠ inr ENOENT → resolve links h' p = r.
Proof.
  intros (Hn & Hd & _). revert p.
  induction links as [|n IH]; intros p; simpl; rewrite Hd.
  - destruct (decide (p ∈ denied h)); [done|].
    destruct (nodes h !! p) as [node|] eqn:Hp; [|by intros <-].
    by rewrite (lookup_weaken _ _ _ _ Hp Hn).
  - destruct (decide (p ∈ denied h)); [done|].
    destruct (nodes h !! p) as [node|] eqn:Hp; [|by intros <-].
    rewrite (lookup_weaken _ _ _ _ Hp Hn). destruct node; try done. apply IH.
Qed.

Lemma Stat_grows h h' p node :
  hostGrows h h' → os.Stat h p = inl node → os.Stat h' p = inl node.
Proof.
  intros Hg. unfold os.Stat. destruct (String.eqb p ""); [done|].
  destruct (resolve 40 h (path.Clean p)) as [[q n]|e] eqn:Hr; [|done].
  intros [= <-]. by rewrite (resolve_grows _ _ _ _ _ Hg Hr).
Qed.

Lemma EvalSymlinks_grows h h' p q :
  hostGrows h h' → filepath.EvalSymlinks h p = inl q → filepath.EvalSymlinks h' p = inl q.
Proof.
  intros Hg. unfold filepath.EvalSymlinks. destruct (String.eqb p ""); [done|].
  destruct (resolve 255 h (path.Clean p)) as [[q' n]|e] eqn:Hr; [|by destruct e].
  intros [= <-]. by rewrite (resolve_grows _ _ _ _ _ Hg Hr).
Qed.

Lemma fileExists_grows h h' p :
  hostGrows h h' → fileExists h p = true → fileExists h' p = true.
Proof.
  intros Hg. unfold fileExists, os.Stat. destruct (String.eqb p ""); [done|].
  destruct (resolve 40 h (path.Clean p)) as [[q n]|e] eqn:Hr.
  - by rewrite (resolve_grows _ _ _ _ _ Hg Hr).
  - destruct e; try done; by rewrite (resolve_grows _ _ _ _ _ Hg Hr).
Qed.

Lemma resolve_nonempty links h p q node :
  p ≠ "" → resolve links h p = inl (q, node) → q ≠ "".
Proof.
  revert p. induction links as [|n IH]; intros p Hp; simpl.
  - destruct (decide (p ∈ denied h)); [done|].
    destruct (nodes h !! p) as [[]|]; try done; by intros [= <- _].
  - destruct (decide (p ∈ denied h)); [done|].
    destruct (nodes h !! p) as [[]|]; try done; try (by intros [= <- _]).
    apply IH. unfold linkTarget. destruct (path.isRooted target); apply Clean_nonempty.
Qed.

Lemma EvalSymlinks_nonempty h p q : p ≠ "" → filepath.EvalSymlinks h p = inl q → q ≠ "".
Proof.
  intros Hp. unfold filepath.EvalSymlinks. rewrite (eqb_false _ _ Hp).
  destruct (resolve 255 h (path.Clean p)) as [[q' n]|e] eqn:Hr; [|by destruct e].
  intros [= <-]. eapply resolve_nonempty; [|done]. apply Clean_nonempty.
Qed.

Lemma Stat_made h p node :
  p ≠ "" → path.Clean p ∉ denied h → nodes h !! path.Clean p = Some node →
  (∀ target, node ≠ SymbolicLink target) → os.Stat h p = inl node.
Proof.
  intros Hp Hd Hn Hl. unfold os.Stat. rewrite (eqb_false _ _ Hp). simpl.
  destruct (decide (path.Clean p ∈ denied h)); [done|]. rewrite Hn.
  destruct node; try done. by destruct (Hl target).
Qed.

Lemma Mkdir_made h p h' : os.Mkdir h p = (h', None) → os.Stat h' p = inl Directory.
Proof.
  unfold os.Mkdir. destruct (os.creatable h p) eqn:Hc; [done|]. intros [= <-].
  apply creatable_fresh in Hc as (? & ? & ?).
  apply (Stat_made _ p); [done..| |done]. simpl. apply lookup_insert_eq.
Qed.

Lemma Lstat_dir h p : os.Lstat h p = inl Directory → os.Stat h p = inl Directory.
Proof.
  unfold os.Lstat. destruct (String.eqb_spec p ""); [done|].
  destruct (decide (path.Clean p ∈ denied h)); [done|].
  destruct (nodes h !! path.Clean p) eqn:Hn; [|done]. intros [= ->].
  by apply (Stat_made _ p).
Qed.

(** When [os.MkdirAll] returns no error the path is a directory. *)
Lemma MkdirAll_made h p h' : os.MkdirAll h p = (h', None) → os.Stat h' p = inl Directory.
Proof.
  unfold os.MkdirAll. simpl.
  destruct (os.Stat h p) as [[]|] eqn:Hs; try done; [by intros [= <-]|].
  destruct (os.mkdirAllChain (os.ancestorsOf p) h) as [h1 [err|]]; [done|].
  destruct (os.Mkdir h1 p) as [h2 [err|]] eqn:Hm.
  - destruct (os.Lstat h2 p) as [[]|] eqn:Hl; try done. intros [= <-]. by apply Lstat_dir.
  - intros [= <-]. by apply Mkdir_made in Hm.
Qed.

(** [os.MkdirAll] on a directory that is there changes nothing. *)
Lemma MkdirAll_present h p : os.Stat h p = inl Directory → os.MkdirAll h p = (h, None).
Proof. intros Hs. unfold os.MkdirAll. simpl. by rewrite Hs. Qed.

Lemma Stat_dir_exists h p node : os.Stat h p = inl node → fileExists h p = true.
Proof. intros Hs. unfold fileExists. by rewrite Hs. Qed.

(** ** Reasoning about a cycle *)

Lemma worldGrows_preorder : PreOrder worldGrows.
Proof.
  split; [by intros w|]. intros w1 w2 w3 ??. unfold worldGrows in *. by etrans.
Qed.
Global Existing Instance worldGrows_preorder.

Lemma reports_preorder P : PreOrder (reports P).
Proof.
  split.
  - intros w. exists []. by rewrite app_nil_r.
  - intros w1 w2 w3 (e1 & H1 & ?) (e2 & H2 & ?). exists (e1 ++ e2).
    rewrite H2, H1, app_assoc. split; [done|]. by apply Forall_app.
Qed.
Global Existing Instance reports_preorder.

Lemma attempts_preorder P : PreOrder (attempts P).
Proof.
  split.
  - intros w. exists []. by rewrite app_nil_r.
  - intros w1 w2 w3 (e1 & H1 & ?) (e2 & H2 & ?). exists (e1 ++ e2).
    rewrite H2, H1, app_assoc. split; [done|]. by apply Forall_app.
Qed.
Global Existing Instance attempts_preorder.

Lemma mapGrows_preorder : PreOrder mapGrows.
Proof.
  split; [by intros m sc|]. intros m1 m2 m3 H1 H2 sc. etrans; [apply H1|apply H2].
Qed.
Global Existing Instance mapGrows_preorder.

Section always.
Context (R : relation World) `{!PreOrder R}.

Lemma always_ret {A} (a : A) : always R (ret a).
Proof. by intros w. Qed.

Lemma always_ask {A} (f : Host → A) : always R (ask f).
Proof. by intros w. Qed.

Lemma always_bind {A B} (m : M A) (k : A → M B) :
  always R m → (∀ a, always R (k a)) → always R (bind m k).
Proof.
  intros Hm Hk w. unfold bind. specialize (Hm w).
  destruct (m w) as [a w1]. simpl in Hm. etrans; [done|]. apply Hk.
Qed.

Lemma always_forEach {A} (items : list A) (body : A → M unit) :
  (∀ item, always R (body item)) → always R (forEach items body).
Proof.
  intros Hb. induction items as [|item more IH]; simpl.
  - apply always_ret.
  - apply always_bind; [apply Hb|]. by intros _.
Qed.

Lemma always_forEachWith {A S} (items : list A) (body : A → S → M S) (local : S) :
  (∀ item s, always R (body item s)) → always R (forEachWith items body local).
Proof.
  intros Hb. revert local. induction items as [|item more IH]; intros local; simpl.
  - apply always_ret.
  - apply always_bind; [apply Hb|]. apply IH.
Qed.
End always.

(** Break a computation into its calls, leaving the calls that change
    the world. *)
Ltac always_steps :=
  repeat match goal with
    | |- always _ (ret _) => apply always_ret; apply _
    | |- always _ (ask _) => apply always_ask; apply _
    | |- always _ (bind _ _) => apply always_bind; [apply _| |intros ?; cbv beta]
    | |- always _ (forEach _ _) => apply always_forEach; [apply _|intros ?; cbv beta]
    | |- always _ (forEachWith _ _ _) =>
        apply always_forEachWith; [apply _|intros ? ?; cbv beta]
    | |- always _ (if ?b then _ else _) => destruct b
    | |- always _ (let '(_, _) := ?x in _) => destruct x
    | |- always _ (match ?x with _ => _ end) => destruct x
    end.

Lemma worldGrows_report e : always worldGrows (report e).
Proof. by intros w. Qed.

Lemma worldGrows_callMkdirAll p : always worldGrows (callMkdirAll p).
Proof.
  intros w. unfold callMkdirAll, worldGrows.
  pose proof (MkdirAll_grows (host w) p). by destruct (os.MkdirAll (host w) p).
Qed.

Lemma reports_report (P : event → Prop) e : P e → always (reports P) (report e).
Proof. intros He w. exists [e]. split; [done|]. by constructor. Qed.

Lemma reports_callMkdirAll P p : always (reports P) (callMkdirAll p).
Proof.
  intros w. unfold callMkdirAll. destruct (os.MkdirAll (host w) p). exists []. by rewrite app_nil_r.
Qed.

Lemma reports_callSymlink P old new : always (reports P) (callSymlink old new).
Proof.
  intros w. unfold callSymlink. destruct (os.Symlink (host w) old new).
  exists []. by rewrite app_nil_r.
Qed.

(** *** The matcher only adds to its map *)

Lemma assignmentsOf_add m sc stable name dir sc' :
  assignmentsOf (addDiskToMap m sc stable name dir) sc'
  = if decide (sc = sc') then assignmentsOf m sc ++ [MkDiskLocation name stable dir]
    else assignmentsOf m sc'.
Proof.
  unfold assignmentsOf, addDiskToMap. destruct (decide (sc = sc')) as [<-|Hne].
  - rewrite lookup_insert_eq. simpl. by destruct (m !! sc).
  - by rewrite lookup_insert_ne.
Qed.

Lemma mapGrows_add m sc stable name dir : mapGrows m (addDiskToMap m sc stable name dir).
Proof.
  intros sc'. rewrite assignmentsOf_add. destruct (decide (sc = sc')) as [<-|]; [|done].
  by apply prefix_app_r.
Qed.

Lemma forEachWith_inv {A S} (Inv : S → Prop) (items : list A) (body : A → S → M S) :
  (∀ item s w, item ∈ items → Inv s → Inv (body item s w).1) →
  ∀ s w, Inv s → Inv (forEachWith items body s w).1.
Proof.
  induction items as [|item more IH]; intros Hb s w Hs; simpl; [done|].
  unfold bind. destruct (body item s w) as [s1 w1] eqn:Hstep.
  apply IH; [intros; apply Hb; [by right|done]|].
  specialize (Hb item s w). rewrite Hstep in Hb. apply Hb; [by left|done].
Qed.

Lemma forEachWith_grows {A} (items : list A)
    (body : A → gmap string (list DiskLocation) → M (gmap string (list DiskLocation))) :
  (∀ item m w, mapGrows m (body item m w).1) →
  ∀ m w, mapGrows m (forEachWith items body m w).1.
Proof.
  intros Hb m w. apply (forEachWith_inv (mapGrows m)); [|done].
  intros item s w' _ Hs. etrans; [done|]. apply Hb.
Qed.

(** *** What the matcher does to the world and to its map *)

Lemma hasExactDisk_elem disks device : hasExactDisk disks device = true ↔ device ∈ disks.
Proof.
  unfold hasExactDisk, sets.List. rewrite existsb_exists. split.
  - intros (disk & Hin & ->%String.eqb_eq).
    apply list_elem_of_In in Hin. rewrite merge_sort_Permutation in Hin.
    by apply elem_of_elements in Hin.
  - intros Hin. exists device. split; [|apply String.eqb_refl].
    apply list_elem_of_In. rewrite merge_sort_Permutation. by apply elem_of_elements.
Qed.

Lemma List_elem (s : gset string) x : x ∈ sets.List s ↔ x ∈ s.
Proof. unfold sets.List. by rewrite merge_sort_Permutation, elem_of_elements. Qed.

Lemma handleDiskName_grows deviceSet ids sc name m w :
  mapGrows m (handleDiskName deviceSet ids sc name m w).1.
Proof.
  unfold handleDiskName. destruct (hasExactDisk _ _); [|done].
  unfold bind, ask. destruct (findStableDeviceID _ _ _) as [stable err].
  destruct (bool_decide _); apply mapGrows_add.
Qed.

Lemma handleDeviceID_grows deviceSet sc id m w :
  mapGrows m (handleDeviceID deviceSet sc id m w).1.
Proof.
  unfold handleDeviceID, bind, ask. destruct (findDeviceByID _ _) as [[a b] err].
  destruct (bool_decide _); [done|]. destruct (hasExactDisk _ _); [apply mapGrows_add|done].
Qed.

Lemma handleDirectory_grows sc dir m w :
  mapGrows m (handleDirectory sc dir m w).1.
Proof.
  unfold handleDirectory, bind, ask. destruct (fileExists _ _).
  - destruct (isDir _ _) as [[] err]; destruct (bool_decide _); simpl;
      solve [apply mapGrows_add | done].
  - destruct (callMkdirAll _ w) as [err w1]. destruct (bool_decide _); [done|apply mapGrows_add].
Qed.

Lemma handleStorageClass_grows deviceSet ids entry m w :
  mapGrows m (handleStorageClass deviceSet ids entry m w).1.
Proof.
  destruct entry as [sc disks]. unfold handleStorageClass, bind.
  destruct (forEachWith (sets.List (DeviceNames disks)) _ m w) as [m1 w1] eqn:H1.
  destruct (forEachWith (sets.List (DeviceIDs disks)) _ m1 w1) as [m2 w2] eqn:H2.
  etrans; [|etrans]; [| |apply forEachWith_grows, handleDirectory_grows].
  - pose proof (forEachWith_grows (sets.List (DeviceNames disks)) _
                  (handleDiskName_grows deviceSet ids sc) m w) as Hg.
    by rewrite H1 in Hg.
  - pose proof (forEachWith_grows (sets.List (DeviceIDs disks)) _
                  (handleDeviceID_grows deviceSet sc) m1 w1) as Hg.
    by rewrite H2 in Hg.
Qed.

Lemma handleDiskName_world R `{!PreOrder R} deviceSet ids sc name m :
  always R (handleDiskName deviceSet ids sc name m).
Proof. unfold handleDiskName. always_steps. Qed.

Lemma handleDeviceID_worldGrows deviceSet sc id m :
  always worldGrows (handleDeviceID deviceSet sc id m).
Proof. unfold handleDeviceID. always_steps. apply worldGrows_report. Qed.

Lemma handleDirectory_worldGrows sc dir m : always worldGrows (handleDirectory sc dir m).
Proof.
  unfold handleDirectory. always_steps;
    first [apply worldGrows_report | apply worldGrows_callMkdirAll].
Qed.

Lemma handleStorageClass_worldGrows deviceSet ids entry m :
  always worldGrows (handleStorageClass deviceSet ids entry m).
Proof.
  unfold handleStorageClass. always_steps.
  - apply handleDiskName_world, _.
  - apply handleDeviceID_worldGrows.
  - apply handleDirectory_worldGrows.
Qed.

(** *** An assignment the matcher makes stays where it is *)

Lemma forEachWith_reaches {A} (items : list A)
    (body : A → gmap string (list DiskLocation) → M (gmap string (list DiskLocation)))
    (sc : string) (Q : World → Prop) (Φ : nat → list DiskLocation → Prop) (x : A) :
  (∀ n n' l l', n' ≤ n → l `prefix_of` l' → Φ n l → Φ n' l') →
  x ∈ items →
  (∀ y m w, mapGrows m (body y m w).1) →
  (∀ y m w, Q w → Q (body y m w).2) →
  (∀ m w, Q w → Φ (length (assignmentsOf m sc)) (assignmentsOf (body x m w).1 sc)) →
  ∀ m w, Q w →
    Φ (length (assignmentsOf m sc)) (assignmentsOf (forEachWith items body m w).1 sc).
Proof.
  intros Hmono Hin Hgrow HQ Hx.
  induction items as [|y more IH]; intros m w Hw; [by apply elem_of_nil in Hin|].
  simpl. unfold bind.
  pose proof (Hgrow y m w) as Hg1. pose proof (HQ y m w Hw) as Hw1.
  pose proof (Hx m w Hw) as Hx1.
  destruct (body y m w) as [m1 w1] eqn:Hstep. simpl in *.
  apply elem_of_cons in Hin as [->|Hin].
  - rewrite Hstep in Hx1. simpl in Hx1.
    eapply Hmono; [done| |exact Hx1].
    apply (forEachWith_grows more body Hgrow m1 w1 sc).
  - eapply Hmono; [| |apply (IH Hin m1 w1 Hw1)]; [|done].
    apply prefix_length, Hg1.
Qed.

Lemma forEachWith_keeps {A S} (Q : World → Prop) (items : list A) (body : A → S → M S) :
  (∀ y s w, Q w → Q (body y s w).2) →
  ∀ s w, Q w → Q (forEachWith items body s w).2.
Proof.
  intros HQ. induction items as [|y more IH]; intros s w Hw; simpl; [done|].
  unfold bind. specialize (HQ y s w Hw). destruct (body y s w) as [s1 w1]. by apply IH.
Qed.

(** The assignment for a device name that is listed as unmounted. *)
Lemma handleDiskName_adds deviceSet ids sc name m w :
  filepath.Base name ∈ deviceSet →
  ∃ stable, assignmentsOf (handleDiskName deviceSet ids sc name m w).1 sc
            = assignmentsOf m sc ++ [MkDiskLocation name stable ""].
Proof.
  intros Hin. unfold handleDiskName.
  rewrite (proj2 (hasExactDisk_elem _ _) Hin).
  unfold bind, ask. destruct (findStableDeviceID _ _ _) as [stable err].
  destruct (bool_decide _); simpl; eexists; rewrite assignmentsOf_add;
    by rewrite decide_True.
Qed.

(** The assignment for an identifier that resolves to an unmounted
    device. *)
Lemma handleDeviceID_adds deviceSet sc id dev m w :
  filepath.EvalSymlinks (host w) id = inl dev → filepath.Base dev ∈ deviceSet →
  assignmentsOf (handleDeviceID deviceSet sc id m w).1 sc
  = assignmentsOf m sc ++ [MkDiskLocation dev id ""].
Proof.
  intros Hev Hin. unfold handleDeviceID, bind, ask, findDeviceByID. rewrite Hev.
  simpl. rewrite (proj2 (hasExactDisk_elem _ _) Hin). simpl.
  rewrite assignmentsOf_add. by rewrite decide_True.
Qed.

Lemma resolves_grows id dev w w' :
  worldGrows w w' → filepath.EvalSymlinks (host w) id = inl dev → filepath.EvalSymlinks (host w') id = inl dev.
Proof. intros Hg. by apply EvalSymlinks_grows. Qed.

Lemma range_elem (order : MapRange) {V} (m : gmap string V) (k : string) (v : V) :
  (k, v) ∈ rangeOver order m ↔ m !! k = Some v.
Proof. by rewrite (rangeOver_perm order), elem_of_map_to_list. Qed.

Lemma twice_mono name id n n' l l' :
  n' ≤ n → l `prefix_of` l' → twice name id n l → twice name id n' l'.
Proof.
  intros Hn Hp (i & j & stable & ? & ? & Hi & Hj).
  exists i, j, stable. repeat split; [lia|done|..]; by eapply prefix_lookup_Some.
Qed.

Lemma names_pass_adds deviceSet ids sc names name m w :
  name ∈ names → filepath.Base name ∈ deviceSet →
  ∃ i stable, length (assignmentsOf m sc) ≤ i
    ∧ assignmentsOf (forEachWith names (handleDiskName deviceSet ids sc) m w).1 sc !! i
      = Some (MkDiskLocation name stable "").
Proof.
  intros Hin Hbase.
  apply (forEachWith_reaches names (handleDiskName deviceSet ids sc) sc (λ _, True)
    (λ n l, ∃ i stable, n ≤ i ∧ l !! i = Some (MkDiskLocation name stable "")) name);
    try done.
  - intros n n' l l' ? ? (i & stable & ? & ?). exists i, stable.
    split; [lia|by eapply prefix_lookup_Some].
  - intros. apply handleDiskName_grows.
  - intros m' w' _.
    destruct (handleDiskName_adds deviceSet ids sc name m' w' Hbase) as [stable ->].
    exists (length (assignmentsOf m' sc)), stable. split; [done|]. by apply list_lookup_middle.
Qed.

Lemma ids_pass_adds deviceSet sc deviceIds id dev m w :
  id ∈ deviceIds → filepath.EvalSymlinks (host w) id = inl dev → filepath.Base dev ∈ deviceSet →
  ∃ j, length (assignmentsOf m sc) ≤ j
    ∧ assignmentsOf (forEachWith deviceIds (handleDeviceID deviceSet sc) m w).1 sc !! j
      = Some (MkDiskLocation dev id "").
Proof.
  intros Hin Hev Hbase.
  apply (forEachWith_reaches deviceIds (handleDeviceID deviceSet sc) sc
    (λ w, filepath.EvalSymlinks (host w) id = inl dev)
    (λ n l, ∃ j, n ≤ j ∧ l !! j = Some (MkDiskLocation dev id "")) id); try done.
  - intros n n' l l' ? ? (j & ? & ?). exists j.
    split; [lia|by eapply prefix_lookup_Some].
  - intros. apply handleDeviceID_grows.
  - intros y m' w' Hw'. eapply resolves_grows; [|done]. apply handleDeviceID_worldGrows.
  - intros m' w' Hw'. rewrite (handleDeviceID_adds deviceSet sc id dev m' w' Hw' Hbase).
    exists (length (assignmentsOf m' sc)). split; [done|]. by apply list_lookup_middle.
Qed.

Lemma handleStorageClass_twice deviceSet ids sc disks name id m w :
  name ∈ DeviceNames disks → id ∈ DeviceIDs disks →
  filepath.Base name ∈ deviceSet →
  filepath.EvalSymlinks (host w) id = inl name →
  twice name id (length (assignmentsOf m sc))
    (assignmentsOf (handleStorageClass deviceSet ids (sc, disks) m w).1 sc).
Proof.
  intros Hname%List_elem Hid%List_elem Hbase Hev. unfold handleStorageClass, bind.
  destruct (names_pass_adds deviceSet ids sc _ name m w Hname Hbase)
    as (i & stable & Hi & Hli).
  pose proof (always_forEachWith worldGrows (sets.List (DeviceNames disks))
    (handleDiskName deviceSet ids sc) m
    (λ y s, handleDiskName_world worldGrows deviceSet ids sc y s) w) as Hw1.
  destruct (forEachWith (sets.List (DeviceNames disks)) _ m w) as [m1 w1].
  simpl in Hli, Hw1.
  destruct (ids_pass_adds deviceSet sc _ id name m1 w1 Hid
              (resolves_grows _ _ _ _ Hw1 Hev) Hbase) as (j & Hj & Hlj).
  destruct (forEachWith (sets.List (DeviceIDs disks)) _ m1 w1) as [m2 w2] eqn:H2.
  pose proof (forEachWith_grows (sets.List (DeviceIDs disks)) (handleDeviceID deviceSet sc)
    (handleDeviceID_grows deviceSet sc) m1 w1 sc) as G2.
  rewrite H2 in G2.
  pose proof (forEachWith_grows (DirectoryPaths disks) (handleDirectory sc)
    (handleDirectory_grows sc) m2 w2 sc) as G3.
  simpl in *.
  exists i, j, stable. repeat split; [done| |..].
  - apply lookup_lt_Some in Hli. lia.
  - eapply prefix_lookup_Some; [|done]. by eapply prefix_lookup_Some.
  - by eapply prefix_lookup_Some.
Qed.

(** C3. When a device qualifies under a device name and under a device
    identifier of one storage class (the base name of the configured
    name is among the unmounted devices and the configured identifier
    resolves to that name), the list [findMatchingDisks] returns for
    the class holds two assignments for the device, at two places: the
    one of the pass over the names before the one of the pass over the
    identifiers.  Nothing is removed between the passes. *)
Theorem findMatchingDisks_matches_twice (order : MapRange) (diskConfig : DiskConfig)
    (deviceSet : gset string) (allDiskIds : list string) (w : World)
    (storageClass : string) (disks : Disks) (name id : string) :
  ConfigDisks diskConfig !! storageClass = Some disks →
  name ∈ DeviceNames disks → id ∈ DeviceIDs disks →
  filepath.Base name ∈ deviceSet →
  filepath.EvalSymlinks (host w) id = inl name →
  ∃ deviceArray i j stable,
    (findMatchingDisks order diskConfig deviceSet allDiskIds w).1.1 !! storageClass
      = Some deviceArray
    ∧ i < j
    ∧ deviceArray !! i = Some (MkDiskLocation name stable "")
    ∧ deviceArray !! j = Some (MkDiskLocation name id "").
Proof.
  intros Hcfg Hname Hid Hbase Hev.
  assert (Htwice : twice name id 0
            (assignmentsOf (findMatchingDisks order diskConfig deviceSet allDiskIds w).1.1
               storageClass)).
  { unfold findMatchingDisks, bind.
    pose proof (forEachWith_reaches (rangeOver order (ConfigDisks diskConfig))
      (handleStorageClass deviceSet allDiskIds) storageClass
      (λ w, filepath.EvalSymlinks (host w) id = inl name) (twice name id) (storageClass, disks)
      (twice_mono name id)) as Hreach.
    specialize (Hreach (proj2 (range_elem order _ _ _) Hcfg)
      (handleStorageClass_grows deviceSet allDiskIds)).
    specialize (Hreach (λ y m' w' Hw', resolves_grows _ _ _ _
      (handleStorageClass_worldGrows deviceSet allDiskIds y m' w') Hw')).
    specialize (Hreach (λ m' w' Hw',
      handleStorageClass_twice deviceSet allDiskIds storageClass disks name id m' w'
        Hname Hid Hbase Hw') ∅ w Hev).
    destruct (forEachWith _ _ ∅ w) as [m' w']. simpl in *.
    eapply twice_mono; [| |exact Hreach]; [lia|done]. }
  destruct Htwice as (i & j & stable & _ & Hij & Hi & Hj).
  unfold assignmentsOf in Hi, Hj.
  destruct ((findMatchingDisks order diskConfig deviceSet allDiskIds w).1.1 !! storageClass)
    as [deviceArray|]; [|done].
  by exists deviceArray, i, j, stable.
Qed.

Lemma findMatchingDisks_matches_twice_witness :
  ∃ deviceArray i j stable,
    (findMatchingDisks listOrder cfgSsd {[ "sdb" ]} ["/dev/disk/by-id/ata-NEW"]
       (idle hNode)).1.1 !! "ssd" = Some deviceArray
    ∧ i < j
    ∧ deviceArray !! i = Some (MkDiskLocation "/dev/sdb" stable "")
    ∧ deviceArray !! j = Some (MkDiskLocation "/dev/sdb" "/dev/disk/by-id/ata-NEW" "").
Proof.
  apply (findMatchingDisks_matches_twice listOrder cfgSsd {[ "sdb" ]}
           ["/dev/disk/by-id/ata-NEW"] (idle hNode) "ssd" ssdDisks).
  - apply lookup_singleton_eq.
  - change ("/dev/sdb" ∈ ({[ "/dev/sdb" ]} : gset string)). by apply elem_of_singleton.
  - change ("/dev/disk/by-id/ata-NEW" ∈ ({[ "/dev/disk/by-id/ata-NEW" ]} : gset string)).
    by apply elem_of_singleton.
  - by apply elem_of_singleton.
  - vm_compute. reflexivity.
Defined.

(** *** Every assignment comes from one selector *)

Lemma selection_add diskConfig m sc disks stable name dir :
  ConfigDisks diskConfig !! sc = Some disks →
  selectedBy disks (MkDiskLocation name stable dir) →
  selection diskConfig m → selection diskConfig (addDiskToMap m sc stable name dir).
Proof.
  intros Hcfg Hsel Hm sc' loc. rewrite assignmentsOf_add.
  destruct (decide (sc = sc')) as [<-|]; [|apply Hm].
  intros [Hin|Hin%list_elem_of_singleton]%elem_of_app; [by apply Hm|]. subst. eauto.
Qed.

Lemma handleDiskName_selection diskConfig deviceSet ids sc disks name m w :
  ConfigDisks diskConfig !! sc = Some disks → name ∈ DeviceNames disks →
  selection diskConfig m → selection diskConfig (handleDiskName deviceSet ids sc name m w).1.
Proof.
  intros Hcfg Hname Hm. unfold handleDiskName. destruct (hasExactDisk _ _); [|done].
  unfold bind, ask. destruct (findStableDeviceID _ _ _) as [stable err].
  destruct (bool_decide _); simpl; (eapply selection_add; [done| |done]); by left.
Qed.

Lemma handleDeviceID_selection diskConfig deviceSet sc disks id m w :
  ConfigDisks diskConfig !! sc = Some disks → id ∈ DeviceIDs disks →
  selection diskConfig m → selection diskConfig (handleDeviceID deviceSet sc id m w).1.
Proof.
  intros Hcfg Hid Hm. unfold handleDeviceID, bind, ask, findDeviceByID.
  destruct (filepath.EvalSymlinks (host w) id) as [dev|] eqn:Hev; simpl; [|done].
  destruct (hasExactDisk _ _); [|done]. simpl.
  eapply selection_add; [done| |done]. right; left. simpl.
  repeat split; [done|]. intros Hne. by eapply EvalSymlinks_nonempty.
Qed.

Lemma handleDirectory_selection diskConfig sc disks directory m w :
  ConfigDisks diskConfig !! sc = Some disks → directory ∈ DirectoryPaths disks →
  selection diskConfig m → selection diskConfig (handleDirectory sc directory m w).1.
Proof.
  intros Hcfg Hdir Hm. unfold handleDirectory, bind, ask.
  assert (selectedBy disks (MkDiskLocation "" "" (path.Join rootfsDir directory))).
  { right; right. simpl. eauto. }
  destruct (fileExists _ _).
  - destruct (isDir _ _) as [[] err]; destruct (bool_decide _); simpl;
      solve [by eapply selection_add | done].
  - destruct (callMkdirAll _ w) as [err w1].
    destruct (bool_decide _); simpl; [done|by eapply selection_add].
Qed.

Lemma handleStorageClass_selection diskConfig deviceSet ids sc disks m w :
  ConfigDisks diskConfig !! sc = Some disks →
  selection diskConfig m →
  selection diskConfig (handleStorageClass deviceSet ids (sc, disks) m w).1.
Proof.
  intros Hcfg Hm. unfold handleStorageClass, bind.
  pose proof (forEachWith_inv (selection diskConfig) (sets.List (DeviceNames disks))
    (handleDiskName deviceSet ids sc)
    (λ name s w' Hin, handleDiskName_selection diskConfig deviceSet ids sc disks name s w'
       Hcfg (proj1 (List_elem _ _) Hin)) m w Hm) as H1.
  destruct (forEachWith (sets.List (DeviceNames disks)) _ m w) as [m1 w1].
  pose proof (forEachWith_inv (selection diskConfig) (sets.List (DeviceIDs disks))
    (handleDeviceID deviceSet sc)
    (λ id s w' Hin, handleDeviceID_selection diskConfig deviceSet sc disks id s w'
       Hcfg (proj1 (List_elem _ _) Hin)) m1 w1 H1) as H2.
  destruct (forEachWith (sets.List (DeviceIDs disks)) _ m1 w1) as [m2 w2].
  apply (forEachWith_inv (selection diskConfig)); [|done].
  intros directory s w' Hin. by eapply handleDirectory_selection.
Qed.

Lemma findMatchingDisks_selection order diskConfig deviceSet ids w :
  selection diskConfig (findMatchingDisks order diskConfig deviceSet ids w).1.1.
Proof.
  unfold findMatchingDisks, bind.
  pose proof (forEachWith_inv (selection diskConfig)
    (rangeOver order (ConfigDisks diskConfig)) (handleStorageClass deviceSet ids)) as Hinv.
  specialize (Hinv (λ entry s w' Hin,
    match entry return entry ∈ rangeOver order (ConfigDisks diskConfig) → _ with
    | (sc, disks) => λ Hin, handleStorageClass_selection diskConfig deviceSet ids sc disks s w'
                              (proj1 (range_elem order _ _ _) Hin)
    end Hin) ∅ w).
  destruct (forEachWith _ _ ∅ w) as [m w']. simpl in *. apply Hinv.
  intros sc loc Hin. unfold assignmentsOf in Hin. rewrite lookup_empty in Hin.
  by apply elem_of_nil in Hin.
Qed.

Lemma Join_rootfs_nonempty directory : path.Join rootfsDir directory ≠ "".
Proof. unfold path.Join, rootfsDir. simpl. apply Clean_nonempty. Qed.

(** C4. In what [findMatchingDisks] returns for a configuration whose
    device names and identifier paths are not empty strings, every
    assignment has exactly one of the device path and the directory path:
    an assignment of the passes over the device names and the
    identifiers has a device path and no directory path, an assignment
    of the pass over the directories has a directory path and no device
    path. *)
Theorem findMatchingDisks_one_path (order : MapRange) (diskConfig : DiskConfig)
    (deviceSet : gset string) (allDiskIds : list string) (w : World) :
  (∀ sc disks, ConfigDisks diskConfig !! sc = Some disks →
     ("" ∉ DeviceNames disks) ∧ ("" ∉ DeviceIDs disks)) →
  ∀ storageClass deviceArray loc,
    (findMatchingDisks order diskConfig deviceSet allDiskIds w).1.1 !! storageClass
      = Some deviceArray →
    loc ∈ deviceArray →
    ∃ disks, ConfigDisks diskConfig !! storageClass = Some disks ∧
      ((diskNamePath loc ∈ DeviceNames disks ∨ diskID loc ∈ DeviceIDs disks)
         ∧ diskNamePath loc ≠ "" ∧ directoryPath loc = ""
       ∨ (∃ directory, directory ∈ DirectoryPaths disks
            ∧ directoryPath loc = path.Join rootfsDir directory)
         ∧ diskNamePath loc = "" ∧ directoryPath loc ≠ "").
Proof.
  intros Hne sc deviceArray loc Hsc Hin.
  destruct (findMatchingDisks_selection order diskConfig deviceSet allDiskIds w sc loc)
    as (disks & Hcfg & Hsel).
  { unfold assignmentsOf. by rewrite Hsc. }
  exists disks. split; [done|]. destruct (Hne sc disks Hcfg) as [Hn Hi].
  destruct Hsel as [[Hname Hdir]|[(Hid & Hdev & Hdir)|[(dir & Hd & Hpath) Hdev]]].
  - left. repeat split; [by left| |done]. intros Heq. by rewrite Heq in Hname.
  - left. repeat split; [by right| |done]. apply Hdev. intros Heq. by rewrite Heq in Hid.
  - right. repeat split; [by exists dir|done|]. rewrite Hpath. apply Join_rootfs_nonempty.
Qed.

Lemma findMatchingDisks_one_path_witness :
  ∃ disks, ConfigDisks cfgSsd !! "ssd" = Some disks ∧
    ((diskNamePath sdb ∈ DeviceNames disks ∨ diskID sdb ∈ DeviceIDs disks)
       ∧ diskNamePath sdb ≠ "" ∧ directoryPath sdb = ""
     ∨ (∃ directory, directory ∈ DirectoryPaths disks
          ∧ directoryPath sdb = path.Join rootfsDir directory)
       ∧ diskNamePath sdb = "" ∧ directoryPath sdb ≠ "").
Proof.
  eapply (findMatchingDisks_one_path listOrder cfgSsd {[ "sdb" ]}
            ["/dev/disk/by-id/ata-NEW"] (idle hNode)).
  - intros sc disks Hsc.
    change (ConfigDisks cfgSsd) with ({[ "ssd" := ssdDisks ]} : gmap string Disks) in Hsc.
    apply lookup_singleton_Some in Hsc as [_ <-].
    split; intros Hin.
    + change ("" ∈ ({[ "/dev/sdb" ]} : gset string)) in Hin.
      apply elem_of_singleton in Hin. discriminate Hin.
    + change ("" ∈ ({[ "/dev/disk/by-id/ata-NEW" ]} : gset string)) in Hin.
      apply elem_of_singleton in Hin. discriminate Hin.
  - vm_compute. reflexivity.
  - apply list_elem_of_here.
Defined.

(** *** The pass over the identifiers *)

Lemma ids_pass_run deviceSet storageClass deviceIds
    (blockDeviceMap : gmap string (list DiskLocation)) (w : World) :
  forEachWith deviceIds (handleDeviceID deviceSet storageClass) blockDeviceMap w
  = (addAll blockDeviceMap storageClass (omap (idAssignment (host w) deviceSet) deviceIds),
     MkWorld (host w) (reported w ++ omap (idFailure (host w)) deviceIds) (attempted w)).
Proof.
  revert blockDeviceMap w. induction deviceIds as [|id more IH]; intros m w; simpl.
  { rewrite app_nil_r. by destruct w. }
  unfold bind at 1. unfold handleDeviceID at 1, bind, ask, findDeviceByID.
  unfold idFailure at 1, idAssignment at 1.
  destruct (filepath.EvalSymlinks (host w) id) as [dev|err] eqn:Hev; simpl.
  - destruct (hasExactDisk deviceSet (filepath.Base dev)) eqn:Hhas; simpl.
    + apply hasExactDisk_elem in Hhas. rewrite decide_True by done. apply IH.
    + rewrite decide_False; [apply IH|].
      intros Hin%hasExactDisk_elem. congruence.
  - rewrite IH. simpl. by rewrite <- app_assoc.
Qed.

(** C6. The pass over the identifiers of a storage class leaves the
    host alone and treats every identifier by itself, in order: one
    that does not resolve has one error event reported that names it
    and adds no assignment, and the pass goes on; one that resolves has
    no event and adds its assignment exactly when the base name of the
    device it resolves to is among the unmounted devices.  The map
    after the pass is told entry by entry: the lists of the other
    classes are what they were, and the list of the class is what it
    was followed by the assignments added, in the order of the
    identifiers; where nothing is added the entry of the class is what
    it was, be it there or not. *)
Theorem deviceID_pass (deviceSet : gset string) (storageClass : string)
    (deviceIds : list string) (blockDeviceMap : gmap string (list DiskLocation)) (w : World) :
  let '(blockDeviceMap', w') :=
    forEachWith deviceIds (handleDeviceID deviceSet storageClass) blockDeviceMap w in
  let added := omap (idAssignment (host w) deviceSet) deviceIds in
  host w' = host w
  ∧ attempted w' = attempted w
  ∧ reported w' = reported w ++ omap (idFailure (host w)) deviceIds
  ∧ blockDeviceMap' = addAll blockDeviceMap storageClass added
  ∧ (∀ sc, sc ≠ storageClass → blockDeviceMap' !! sc = blockDeviceMap !! sc)
  ∧ blockDeviceMap' !! storageClass
    = match added with
      | [] => blockDeviceMap !! storageClass
      | _ => Some (default [] (blockDeviceMap !! storageClass) ++ added)
      end.
Proof.
  assert (Hlookup : ∀ locs (m : gmap string (list DiskLocation)) sc,
            addAll m storageClass locs !! sc
            = if decide (storageClass = sc) then
                match locs with
                | [] => m !! storageClass
                | _ => Some (default [] (m !! storageClass) ++ locs)
                end
              else m !! sc).
  { induction locs as [|[name id dir] more IH]; intros m sc.
    { simpl. by destruct (decide (storageClass = sc)) as [<-|]. }
    change (addAll m storageClass (MkDiskLocation name id dir :: more))
      with (addAll (addDiskToMap m storageClass id name dir) storageClass more).
    rewrite IH. unfold addDiskToMap. destruct (decide (storageClass = sc)) as [<-|Hne].
    - rewrite lookup_insert_eq. simpl.
      destruct more as [|loc more]; [done|]. by rewrite <- app_assoc.
    - by rewrite lookup_insert_ne. }
  rewrite ids_pass_run. cbv zeta. cbn [host attempted reported].
  split; [done|]. split; [done|]. split; [done|]. split; [done|]. split.
  - intros sc Hne. rewrite Hlookup. by rewrite decide_False.
  - rewrite Hlookup. by rewrite decide_True.
Qed.

Lemma deviceID_pass_witness :
  (forEachWith ["/dev/disk/by-id/ata-NEW"; "/dev/disk/by-id/ata-X"]
     (handleDeviceID {[ "sdb" ]} "ssd") ∅ (idle hNode)).1 !! "ssd"
  = Some [MkDiskLocation "/dev/sdb" "/dev/disk/by-id/ata-NEW" ""]
  ∧ reported (forEachWith ["/dev/disk/by-id/ata-NEW"; "/dev/disk/by-id/ata-X"]
                (handleDeviceID {[ "sdb" ]} "ssd") ∅ (idle hNode)).2
    = [resolutionFailed "/dev/disk/by-id/ata-X"].
Proof.
  pose proof (deviceID_pass {[ "sdb" ]} "ssd"
                ["/dev/disk/by-id/ata-NEW"; "/dev/disk/by-id/ata-X"] ∅ (idle hNode)) as H.
  destruct (forEachWith _ _ ∅ (idle hNode)) as [m' w'].
  destruct H as (_ & _ & Hr & _ & _ & Hm). simpl. split.
  - rewrite Hm. vm_compute. reflexivity.
  - rewrite Hr. vm_compute. reflexivity.
Defined.

(** *** The pass over the directories *)

(** C7, amended.  For a configured directory whose path on the host
    exists, the pass over the directories makes no call that could
    create it and leaves the host alone; when the check of the path
    fails it reports one error event and adds no assignment; when the
    path is a directory it adds the directory assignment and reports
    nothing; when the path is something else it adds no assignment and
    reports nothing. *)
Theorem handleDirectory_existing (storageClass directory : string)
    (blockDeviceMap : gmap string (list DiskLocation)) (w : World) :
  let sharedDirPath := path.Join rootfsDir directory in
  fileExists (host w) sharedDirPath = true →
  let '(blockDeviceMap', w') := handleDirectory storageClass directory blockDeviceMap w in
  host w' = host w
  ∧ attempted w' = attempted w
  ∧ match isDir (host w) sharedDirPath with
    | (_, Some err) =>
        reported w' = reported w ++
          [newEvent ErrorCreatingSharedDir
             ("error checking shared dir " +:+ sharedDirPath +:+ ": " +:+ Error err) ""]
        ∧ blockDeviceMap' = blockDeviceMap
    | (true, None) =>
        reported w' = reported w
        ∧ blockDeviceMap' = addDiskToMap blockDeviceMap storageClass "" "" sharedDirPath
    | (false, None) =>
        reported w' = reported w ∧ blockDeviceMap' = blockDeviceMap
    end.
Proof.
  intros sharedDirPath Hex. unfold handleDirectory, bind, ask.
  fold sharedDirPath. rewrite Hex. unfold isDir.
  destruct (os.Open (host w) sharedDirPath) as [node|err]; simpl.
  - destruct (bool_decide (node = Directory)); simpl; by rewrite ?app_nil_r.
  - done.
Qed.

Lemma handleDirectory_existing_witness :
  fileExists hNode (path.Join rootfsDir "data") = true
  ∧ let '(blockDeviceMap', w') := handleDirectory "nfs" "data" ∅ (idle hNode) in
    host w' = hNode ∧ attempted w' = [] ∧ reported w' = [] ∧ blockDeviceMap' = ∅.
Proof.
  split; [reflexivity|].
  pose proof (handleDirectory_existing "nfs" "data" ∅ (idle hNode) eq_refl) as H.
  change (isDir (host (idle hNode)) (path.Join rootfsDir "data")) with (false, @None goError)
    in H.
  destruct (handleDirectory "nfs" "data" ∅ (idle hNode)) as [m' w'].
  destruct H as (Hh & Ha & Hr & Hm). by repeat split.
Defined.

(** C7 as it is stated fails at the directory [data] of the class [nfs]
    on the node: the path /rootfs/data exists and is a regular file, the
    check of the path does not fail, and no event is reported. *)
Lemma handleDirectory_regular_file_no_event :
  fileExists hNode (path.Join rootfsDir "data") = true
  ∧ isDir hNode (path.Join rootfsDir "data") = (false, None)
  ∧ ¬ (∃ e, e ∈ reported (handleDirectory "nfs" "data" ∅ (idle hNode)).2
            ∧ eventType e = ErrorEvent).
Proof.
  split; [reflexivity|]. split; [reflexivity|].
  change (reported (handleDirectory "nfs" "data" ∅ (idle hNode)).2) with (@nil event).
  intros (e & Hin & _). by apply elem_of_nil in Hin.
Qed.

(** *** One assignment of the materializer *)

Lemma symLinkDisk_class_dir_failed d sc loc w err w1 :
  callMkdirAll (classDir d sc) w = (Some err, w1) →
  symLinkDisk d sc loc w
  = report (newEvent ErrorFindingMatchingDisk
              ("error creating symlink dir " +:+ classDir d sc +:+ ": " +:+ Error err) "") w1.
Proof.
  intros Hmk. unfold symLinkDisk, bind. fold (classDir d sc). by rewrite Hmk.
Qed.

Lemma callMkdirAll_frame p w :
  let '(err, w1) := callMkdirAll p w in
  reported w1 = reported w ∧ attempted w1 = attempted w ++ [SysMkdirAll p]
  ∧ (err = None → os.Stat (host w1) p = inl Directory)
  ∧ (os.Stat (host w) p = inl Directory → err = None ∧ host w1 = host w).
Proof.
  unfold callMkdirAll. destruct (os.MkdirAll (host w) p) as [h err] eqn:Hmk. simpl.
  split; [done|]. split; [done|]. split.
  - intros ->. by apply MkdirAll_made in Hmk.
  - intros Hs. rewrite (MkdirAll_present _ _ Hs) in Hmk. split; congruence.
Qed.

(** What the device branch does where nothing exists at the place of the
    link: one call of [os.Symlink], the error event when it fails and the
    success event in both cases. *)
Lemma symLinkDisk_links d sc loc w w1 :
  directoryPath loc = "" →
  callMkdirAll (classDir d sc) w = (None, w1) →
  fileExists (host w1) (linkPath d sc loc) = false →
  let '(h2, symLinkErr) := os.Symlink (host w1) (linkTargetOf loc) (linkPath d sc loc) in
  symLinkDisk d sc loc w
  = (tt, MkWorld h2
           (reported w1 ++ (if symLinkErr is Some _ then [linkFailedEvent d sc loc] else [])
              ++ [linkedEvent loc])
           (attempted w1 ++ [SysSymlink (linkTargetOf loc) (linkPath d sc loc)])).
Proof.
  intros Hdir Hmk Hex. unfold symLinkDisk, bind. fold (classDir d sc). rewrite Hmk.
  simpl. rewrite Hdir. simpl. unfold ask. fold (linkPath d sc loc). rewrite Hex.
  unfold linkTargetOf.
  destruct (bool_decide (diskID loc ≠ "")); unfold callSymlink;
    destruct (os.Symlink _ _ _) as [h2 [err|]]; simpl; unfold report; simpl;
    by rewrite <- ?app_assoc.
Qed.

(** C1, where the code departs from it.  On the node with the stale
    link the place of the link for [sdb] in the class [ssd] holds a
    link whose target is gone: [fileExists] answers no, [os.Symlink]
    fails, and the error event that names the device is followed by
    the success event that names it too. *)
Theorem symLinkDisk_failed_link_reports_success :
  fileExists hStale (linkPath dStorage "ssd" sdb) = false
  ∧ (os.Symlink hStale (linkTargetOf sdb) (linkPath dStorage "ssd" sdb)).2
    = Some (LinkError "symlink" "/dev/disk/by-id/ata-NEW" "/mnt/local-storage/ssd/sdb" EEXIST)
  ∧ reported (symLinkDisk dStorage "ssd" sdb (idle hStale)).2
    = [ newEvent ErrorFindingMatchingDisk
          "error creating symlink /mnt/local-storage/ssd/sdb: <nil>" "/dev/sdb";
        newSuccessEvent FoundMatchingDisk "found matching disk sdb" "/dev/sdb" ].
Proof. vm_compute. done. Qed.

Lemma symLinkDisk_skips d sc loc w w1 :
  directoryPath loc = "" →
  callMkdirAll (classDir d sc) w = (None, w1) →
  fileExists (host w1) (linkPath d sc loc) = true →
  symLinkDisk d sc loc w = (tt, w1).
Proof.
  intros Hdir Hmk Hex. unfold symLinkDisk, bind. fold (classDir d sc). rewrite Hmk.
  simpl. rewrite Hdir. simpl. unfold ask. fold (linkPath d sc loc). by rewrite Hex.
Qed.

Lemma symLinkDisk_present d sc loc w :
  directoryPath loc = "" →
  fileExists (host w) (linkPath d sc loc) = true →
  let w' := (symLinkDisk d sc loc w).2 in
  attempted w' = attempted w ++ [SysMkdirAll (classDir d sc)]
  ∧ (reported w' = reported w
     ∨ ∃ err, reported w' = reported w ++
         [newEvent ErrorFindingMatchingDisk
            ("error creating symlink dir " +:+ classDir d sc +:+ ": " +:+ Error err) ""]).
Proof.
  intros Hdir Hex.
  pose proof (callMkdirAll_frame (classDir d sc) w) as Hf.
  pose proof (worldGrows_callMkdirAll (classDir d sc) w) as Hg.
  destruct (callMkdirAll (classDir d sc) w) as [[err|] w1] eqn:Hmk.
  - destruct Hf as (Hr & Ha & _).
    rewrite (symLinkDisk_class_dir_failed d sc loc w err w1 Hmk). simpl.
    split; [done|]. right. exists err. by rewrite Hr.
  - destruct Hf as (Hr & Ha & _).
    rewrite (symLinkDisk_skips d sc loc w w1 Hdir Hmk); [by split; [|left]|].
    by apply (fileExists_grows (host w)).
Qed.

Lemma symLinkDisk_untouched d sc loc w :
  directoryPath loc = "" →
  os.Stat (host w) (classDir d sc) = inl Directory →
  fileExists (host w) (linkPath d sc loc) = true →
  let w' := (symLinkDisk d sc loc w).2 in
  host w' = host w ∧ reported w' = reported w
  ∧ attempted w' = attempted w ++ [SysMkdirAll (classDir d sc)].
Proof.
  intros Hdir Hs Hex.
  pose proof (callMkdirAll_frame (classDir d sc) w) as Hf.
  destruct (callMkdirAll (classDir d sc) w) as [err w1] eqn:Hmk.
  destruct Hf as (Hr & Ha & _ & Hp). destruct (Hp Hs) as [-> Hh].
  rewrite (symLinkDisk_skips d sc loc w w1); [done..|]. by rewrite Hh.
Qed.

Lemma untouched_preorder : PreOrder untouched.
Proof.
  split.
  - intros w. by repeat split.
  - intros w1 w2 w3 (? & ? & ?) (? & ? & ?). repeat split; [congruence..|by etrans].
Qed.
Global Existing Instance untouched_preorder.

Lemma forEach_untouched {A} (items : list A) (body : A → M unit) (h : Host) :
  (∀ item w, item ∈ items → host w = h → untouched w (body item w).2) →
  ∀ w, host w = h → untouched w (forEach items body w).2.
Proof.
  induction items as [|item more IH]; intros Hb w Hw; simpl; [done|].
  unfold bind. pose proof (Hb item w (list_elem_of_here _ _) Hw) as H1.
  destruct (body item w) as [[] w1]. simpl in H1. etrans; [done|].
  apply IH; [|destruct H1; congruence].
  intros. apply Hb; [by right|done].
Qed.

(** C8. For a device assignment (no directory path) at whose place of
    the link a file exists when [symLinkDisks] looks, the turn ends
    there: no call of [os.Symlink], no event, the world as the making
    sure of the class directory left it.  It is so whenever the file
    exists before the turn: the one changing call is the [os.MkdirAll]
    of the class directory, and the only event there can be is the
    error for that directory, neither the success event nor the error
    event of a link.  Where the class directory is there already, the
    turn changes nothing on the host and reports nothing.  Hence
    running the materializer on a state where every assignment is a
    device with its class directory and link in place leaves the host
    as it is and reports nothing. *)
Theorem symLinkDisk_already_linked (d : DiskMaker) (order : MapRange) :
  (∀ storageClass loc w w1,
     directoryPath loc = "" →
     callMkdirAll (classDir d storageClass) w = (None, w1) →
     fileExists (host w1) (linkPath d storageClass loc) = true →
     symLinkDisk d storageClass loc w = (tt, w1))
  ∧ (∀ storageClass loc w,
       directoryPath loc = "" →
       fileExists (host w) (linkPath d storageClass loc) = true →
       let w' := (symLinkDisk d storageClass loc w).2 in
       attempted w' = attempted w ++ [SysMkdirAll (classDir d storageClass)]
       ∧ (reported w' = reported w
          ∨ ∃ err, reported w' = reported w ++
              [newEvent ErrorFindingMatchingDisk
                 ("error creating symlink dir " +:+ classDir d storageClass +:+ ": "
                  +:+ Error err) ""]))
  ∧ (∀ storageClass loc w,
       directoryPath loc = "" →
       os.Stat (host w) (classDir d storageClass) = inl Directory →
       fileExists (host w) (linkPath d storageClass loc) = true →
       let w' := (symLinkDisk d storageClass loc w).2 in
       host w' = host w ∧ reported w' = reported w
       ∧ attempted w' = attempted w ++ [SysMkdirAll (classDir d storageClass)])
  ∧ (∀ deviceMap w,
       materialized d deviceMap (host w) →
       let w' := (symLinkAll d order deviceMap w).2 in
       host w' = host w ∧ reported w' = reported w ∧ attempts isMkdirAll w w').
Proof.
  split; [apply symLinkDisk_skips|]. split; [apply symLinkDisk_present|].
  split; [apply symLinkDisk_untouched|].
  intros deviceMap w Hmat. unfold symLinkAll.
  apply (forEach_untouched _ _ (host w)); [|done].
  intros [sc deviceArray] w1 Hin%range_elem Hw1.
  apply (forEach_untouched _ _ (host w)); [|done].
  intros loc w2 Hloc Hw2.
  destruct (Hmat sc deviceArray loc Hin Hloc) as (Hdir & Hs & Hex).
  rewrite <- Hw2 in Hs, Hex.
  destruct (symLinkDisk_untouched d sc loc w2 Hdir Hs Hex) as (? & ? & Ha).
  repeat split; [done..|]. exists [SysMkdirAll (classDir d sc)].
  split; [done|]. constructor; [by eexists|done].
Qed.

Lemma symLinkDisk_already_linked_witness :
  let w' := (symLinkDisk dStorage "ssd" sdb (idle hLinked)).2 in
  host w' = hLinked ∧ reported w' = []
  ∧ attempted w' = [SysMkdirAll "/mnt/local-storage/ssd"].
Proof.
  destruct (symLinkDisk_already_linked dStorage listOrder) as (_ & _ & Hturn & _).
  apply (Hturn "ssd" sdb (idle hLinked)); reflexivity.
Defined.

(** C10. For a directory assignment (a directory path and no device
    path) the turn of [symLinkDisks] makes one changing call, the
    [os.MkdirAll] of the class directory, and never [os.Symlink].
    When that call fails the one event is the error for the class
    directory, which names no device.  When it succeeds nothing is
    reported, whether the bind placeholder exists or not: the place of
    the link computed from the empty device path is the class directory
    itself, which exists. *)
Theorem symLinkDisk_directory (d : DiskMaker) (storageClass : string) (loc : DiskLocation)
    (w : World) :
  directoryPath loc ≠ "" → diskNamePath loc = "" →
  let '(err, w1) := callMkdirAll (classDir d storageClass) w in
  let w' := (symLinkDisk d storageClass loc w).2 in
  host w' = host w1
  ∧ attempted w' = attempted w ++ [SysMkdirAll (classDir d storageClass)]
  ∧ match err with
    | Some e =>
        reported w' = reported w ++
          [newEvent ErrorFindingMatchingDisk
             ("error creating symlink dir " +:+ classDir d storageClass +:+ ": " +:+ Error e) ""]
    | None =>
        reported w' = reported w
        ∧ linkPath d storageClass loc = classDir d storageClass
        ∧ fileExists (host w1) (classDir d storageClass) = true
    end.
Proof.
  intros Hdir Hdev.
  pose proof (callMkdirAll_frame (classDir d storageClass) w) as Hf.
  destruct (callMkdirAll (classDir d storageClass) w) as [[e|] w1] eqn:Hmk.
  - destruct Hf as (Hr & Ha & _).
    rewrite (symLinkDisk_class_dir_failed d storageClass loc w e w1 Hmk).
    simpl. by rewrite Hr.
  - destruct Hf as (Hr & Ha & Hmade & _). specialize (Hmade eq_refl).
    assert (Hpath : linkPath d storageClass loc = classDir d storageClass).
    { unfold linkPath. rewrite Hdev. change (filepath.Base "") with ".".
      unfold classDir. apply Join_dot. fold (classDir d storageClass).
      intros Hempty. by rewrite Hempty in Hmade. }
    assert (Hex : fileExists (host w1) (classDir d storageClass) = true).
    { by eapply Stat_dir_exists. }
    assert (Hrun : symLinkDisk d storageClass loc w = (tt, w1)).
    { unfold symLinkDisk, bind. fold (classDir d storageClass). rewrite Hmk. simpl.
      rewrite bool_decide_true by done. unfold ask.
      destruct (fileExists (host w1) (path.Join _ (generateBindName _ _))); [done|].
      fold (linkPath d storageClass loc). by rewrite Hpath, Hex. }
    rewrite Hrun. simpl. done.
Qed.

Lemma symLinkDisk_directory_witness :
  let w' := (symLinkDisk dStorage "nfs" shared1 (idle hNode)).2 in
  attempted w' = [SysMkdirAll "/mnt/local-storage/nfs"] ∧ reported w' = [].
Proof.
  assert (Hdir : directoryPath shared1 ≠ "") by discriminate.
  pose proof (symLinkDisk_directory dStorage "nfs" shared1 (idle hNode) Hdir eq_refl) as H.
  destruct (callMkdirAll (classDir dStorage "nfs") (idle hNode)) as [[e|] w1] eqn:Hmk.
  - vm_compute in Hmk. discriminate Hmk.
  - destruct H as (_ & Ha & Hr & _). by split.
Defined.

(** *** The events of a cycle *)

Ltac item_event :=
  unfold itemEvent; split;
  [ let H := fresh in intros H; vm_compute in H; discriminate H
  | split; [done|reflexivity] ].

Lemma findMatchingDisks_reports order cfg deviceSet ids :
  always (reports itemEvent) (findMatchingDisks order cfg deviceSet ids).
Proof.
  unfold findMatchingDisks. always_steps.
  unfold handleStorageClass. always_steps.
  - unfold handleDiskName. always_steps.
  - unfold handleDeviceID. always_steps. apply reports_report. item_event.
  - unfold handleDirectory. always_steps;
      first [apply reports_callMkdirAll | apply reports_report; item_event].
Qed.

Lemma symLinkAll_reports d order deviceMap :
  always (reports itemEvent) (symLinkAll d order deviceMap).
Proof.
  unfold symLinkAll. always_steps. unfold symLinkDisk. always_steps;
    first [apply reports_callMkdirAll | apply reports_callSymlink
          | apply reports_report; item_event].
Qed.

Lemma findMatchingDisks_nil order cfg deviceSet ids w :
  (findMatchingDisks order cfg deviceSet ids w).1.2 = None.
Proof. unfold findMatchingDisks, bind. by destruct (forEachWith _ _ ∅ w). Qed.

Lemma symLinkDisks_live d order cfg w :
  symLinkDisks d order cfg w
  = (let '(out, err) := lsblk (host w) in
     if bool_decide (err ≠ None)
     then report (newEvent ErrorRunningBlockList ("error running lsblk: " +:+ fmtV err) "") w
     else
       let '(allDiskIds, err) := globbed (host w) in
       if bool_decide (err ≠ None)
       then report (newEvent ErrorListingDeviceID
                      ("error listing disks in /dev/disk/by-id: " +:+ fmtV err) "") w
       else
         let '((deviceMap, _), w1) :=
           findMatchingDisks order cfg (findNewDisks out).1 allDiskIds w in
         if size deviceMap =? 0 then report emptyMatch w1
         else symLinkAll d order deviceMap w1).
Proof.
  unfold symLinkDisks, bind, ask. destruct (lsblk (host w)) as [out err].
  destruct (bool_decide (err ≠ None)); [done|].
  unfold findNewDisks at 1. cbv iota beta.
  rewrite bool_decide_false by (intros H; by apply H).
  destruct (globbed (host w)) as [allDiskIds err'].
  destruct (bool_decide (err' ≠ None)); [done|].
  pose proof (findMatchingDisks_nil order cfg (findNewDisks out).1 allDiskIds w) as Hnil.
  unfold findNewDisks in *. simpl in *.
  destruct (findMatchingDisks _ _ _ _ w) as [[deviceMap e] w1]. simpl in Hnil. subst e.
  rewrite bool_decide_false by (intros H; by apply H).
  by destruct (size deviceMap =? 0).
Qed.

Lemma populated_add m sc stable name dir :
  populated m → populated (addDiskToMap m sc stable name dir).
Proof.
  intros Hm sc'. unfold addDiskToMap. destruct (decide (sc = sc')) as [<-|].
  - rewrite lookup_insert_eq. intros [= Heq]. by destruct (m !! sc) as [[|??]|].
  - by rewrite lookup_insert_ne.
Qed.

Lemma handleStorageClass_populated deviceSet ids entry m w :
  populated m → populated (handleStorageClass deviceSet ids entry m w).1.
Proof.
  destruct entry as [sc disks]. intros Hm. unfold handleStorageClass, bind.
  assert (H1 : populated
    (forEachWith (sets.List (DeviceNames disks)) (handleDiskName deviceSet ids sc) m w).1).
  { apply (forEachWith_inv populated); [|done].
    intros name s w' _ Hs. unfold handleDiskName.
    destruct (hasExactDisk _ _); [|done]. unfold bind, ask.
    destruct (findStableDeviceID _ _ _) as [stable err].
    destruct (bool_decide _); by apply populated_add. }
  destruct (forEachWith (sets.List (DeviceNames disks)) _ m w) as [m1 w1].
  assert (H2 : populated
    (forEachWith (sets.List (DeviceIDs disks)) (handleDeviceID deviceSet sc) m1 w1).1).
  { apply (forEachWith_inv populated); [|done].
    intros id s w' _ Hs. unfold handleDeviceID, bind, ask.
    destruct (findDeviceByID _ _) as [[a b] err]. destruct (bool_decide _); [done|].
    destruct (hasExactDisk _ _); [by apply populated_add|done]. }
  destruct (forEachWith (sets.List (DeviceIDs disks)) _ m1 w1) as [m2 w2].
  apply (forEachWith_inv populated); [|done].
  intros dir s w' _ Hs. unfold handleDirectory, bind, ask.
  destruct (fileExists _ _).
  - destruct (isDir _ _) as [[] err]; destruct (bool_decide _); simpl;
      solve [by apply populated_add | done].
  - destruct (callMkdirAll _ w') as [err w'']. destruct (bool_decide _); simpl;
      solve [by apply populated_add | done].
Qed.

Lemma findMatchingDisks_populated order cfg deviceSet ids w :
  populated (findMatchingDisks order cfg deviceSet ids w).1.1.
Proof.
  unfold findMatchingDisks, bind.
  assert (Hinv : populated
    (forEachWith (rangeOver order (ConfigDisks cfg)) (handleStorageClass deviceSet ids) ∅ w).1).
  { apply (forEachWith_inv populated).
    - intros entry s w' _. apply handleStorageClass_populated.
    - intros sc. by rewrite lookup_empty. }
  by destruct (forEachWith _ _ ∅ w).
Qed.

Lemma populated_empty (m : gmap string (list DiskLocation)) :
  populated m →
  m = ∅ ↔ ∀ sc deviceArray, m !! sc = Some deviceArray → deviceArray = [].
Proof.
  intros Hm. split; [intros -> sc l; by rewrite lookup_empty|].
  intros Hall. apply map_empty. intros sc.
  destruct (m !! sc) as [l|] eqn:Hsc; [|done].
  pose proof (Hall sc l Hsc) as ->. by destruct (Hm sc).
Qed.

Lemma filter_none {A} (P : A → Prop) `{!∀ x, Decision (P x)} (l : list A) :
  Forall (λ x, ¬ P x) l → filter P l = [].
Proof.
  induction 1 as [|x l Hx _ IH]; [done|]. by rewrite filter_cons_False.
Qed.

Lemma symLinkDisks_matched d order diskConfig w out allDiskIds :
  lsblk (host w) = (out, None) → globbed (host w) = (allDiskIds, None) →
  symLinkDisks d order diskConfig w
  = (let '((deviceMap, _), w1) :=
       findMatchingDisks order diskConfig (findNewDisks out).1 allDiskIds w in
     if size deviceMap =? 0 then report emptyMatch w1
     else symLinkAll d order deviceMap w1).
Proof.
  intros Hls Hgl. rewrite symLinkDisks_live, Hls, Hgl. cbv iota beta.
  by rewrite bool_decide_false by (intros H; by apply H).
Qed.

(** C5. In a cycle that reaches the matcher (the listing and the glob
    succeeded): the map of the matcher is empty exactly when no class
    has an assignment.  When it is empty the cycle reports the event
    for the empty match once, after the events of the matcher, and
    ends there: the host and the changing calls are those the matcher
    left, the materializer has made no directory and no link.  When it
    is not empty no event of the cycle is the event for the empty
    match. *)
Theorem symLinkDisks_no_match (d : DiskMaker) (order : MapRange) (diskConfig : DiskConfig)
    (w : World) (out : string) (allDiskIds : list string) :
  lsblk (host w) = (out, None) → globbed (host w) = (allDiskIds, None) →
  let '((deviceMap, _), w1) :=
    findMatchingDisks order diskConfig (findNewDisks out).1 allDiskIds w in
  let w2 := (symLinkDisks d order diskConfig w).2 in
  let cycleEvents := drop (length (reported w)) (reported w2) in
  (deviceMap = ∅ ↔
     ∀ sc deviceArray, deviceMap !! sc = Some deviceArray → deviceArray = [])
  ∧ (deviceMap = ∅ →
       host w2 = host w1 ∧ attempted w2 = attempted w1
       ∧ reported w2 = reported w1 ++ [emptyMatch]
       ∧ length (filter (λ e, message e = message emptyMatch) cycleEvents) = 1)
  ∧ (deviceMap ≠ ∅ →
       Forall (λ e, message e ≠ message emptyMatch) cycleEvents).
Proof.
  intros Hls Hgl.
  pose proof (symLinkDisks_matched d order diskConfig w out allDiskIds Hls Hgl) as Hlive.
  pose proof (findMatchingDisks_populated order diskConfig (findNewDisks out).1 allDiskIds w)
    as Hpop.
  pose proof (findMatchingDisks_reports order diskConfig (findNewDisks out).1 allDiskIds w)
    as (matched & Hmatched & Hitems).
  destruct (findMatchingDisks order diskConfig (findNewDisks out).1 allDiskIds w)
    as [[deviceMap err] w1].
  simpl in Hpop, Hmatched. rewrite Hlive. clear Hlive. cbv zeta.
  assert (Hnot : Forall (λ e, ¬ message e = message emptyMatch) matched).
  { eapply Forall_impl; [exact Hitems|]. by intros e (? & _). }
  split; [by apply populated_empty|]. split.
  - intros ->. rewrite map_size_empty. simpl.
    split; [done|]. split; [done|]. split; [done|].
    rewrite Hmatched, <- app_assoc, drop_app_length, filter_app, length_app.
    by rewrite (filter_none _ _ Hnot).
  - intros Hne. destruct (size deviceMap =? 0) eqn:Hsize.
    { apply Nat.eqb_eq, map_size_empty_iff in Hsize. done. }
    pose proof (symLinkAll_reports d order deviceMap w1) as (linkedEvs & Hlinked & Hitems2).
    rewrite Hlinked, Hmatched, <- app_assoc, drop_app_length.
    apply Forall_app. split; [done|].
    eapply Forall_impl; [exact Hitems2|]. by intros e (? & _).
Qed.

Lemma symLinkDisks_no_match_witness :
  reported (symLinkDisks dStorage listOrder cfgNone (idle hNode)).2 = [emptyMatch].
Proof.
  pose proof (symLinkDisks_no_match dStorage listOrder cfgNone (idle hNode)
                (lsblk hNode).1 (globbed hNode).1 eq_refl eq_refl) as H.
  assert (Hrun : findMatchingDisks listOrder cfgNone (findNewDisks (lsblk hNode).1).1
                   (globbed hNode).1 (idle hNode) = ((∅, None), idle hNode))
    by (vm_compute; reflexivity).
  rewrite Hrun in H. destruct H as (_ & H & _).
  by destruct (H eq_refl) as (_ & _ & Hr & _).
Defined.

(** C9. [findNewDisks] and [findMatchingDisks] return a nil error on
    every input.  So no cycle reports the event of the branch for an
    error of [findNewDisks] (no event has the reason
    ErrorReadingBlockList) nor the event of the branch for an error of
    [findMatchingDisks] (no message starts as that one does), and a
    cycle whose listing and glob succeeded ends either at the check for
    the empty match or in the materializer. *)
Theorem parsing_and_matching_never_fail (d : DiskMaker) (order : MapRange) :
  (∀ content, (findNewDisks content).2 = None)
  ∧ (∀ diskConfig deviceSet allDiskIds w,
       (findMatchingDisks order diskConfig deviceSet allDiskIds w).1.2 = None)
  ∧ (∀ diskConfig w,
       Forall (λ e, eventReason e ≠ ErrorReadingBlockList
                    ∧ String.prefix "eror finding matching disks: " (message e) = false)
         (drop (length (reported w)) (reported (symLinkDisks d order diskConfig w).2)))
  ∧ (∀ diskConfig w out allDiskIds,
       lsblk (host w) = (out, None) → globbed (host w) = (allDiskIds, None) →
       let '((deviceMap, _), w1) :=
         findMatchingDisks order diskConfig (findNewDisks out).1 allDiskIds w in
       symLinkDisks d order diskConfig w
       = if size deviceMap =? 0 then report emptyMatch w1
         else symLinkAll d order deviceMap w1).
Proof.
  split; [done|]. split; [apply findMatchingDisks_nil|]. split.
  - intros diskConfig w. rewrite symLinkDisks_live.
    set (P := λ e, eventReason e ≠ ErrorReadingBlockList
                   ∧ String.prefix "eror finding matching disks: " (message e) = false).
    assert (Hitem : ∀ e, itemEvent e → P e) by (by intros e (_ & ? & ?)).
    destruct (lsblk (host w)) as [out err].
    destruct (bool_decide (err ≠ None)).
    { simpl. rewrite drop_app_length. by repeat constructor. }
    destruct (globbed (host w)) as [allDiskIds err'].
    destruct (bool_decide (err' ≠ None)).
    { simpl. rewrite drop_app_length. by repeat constructor. }
    pose proof (findMatchingDisks_reports order diskConfig (findNewDisks out).1 allDiskIds w)
      as (matched & Hmatched & Hitems).
    destruct (findMatchingDisks order diskConfig (findNewDisks out).1 allDiskIds w)
      as [[deviceMap e] w1].
    simpl in Hmatched. destruct (size deviceMap =? 0).
    + simpl. rewrite Hmatched, <- app_assoc, drop_app_length.
      apply Forall_app. split; [by eapply Forall_impl|]. by repeat constructor.
    + pose proof (symLinkAll_reports d order deviceMap w1) as (linkedEvs & Hlinked & Hitems2).
      rewrite Hlinked, Hmatched, <- app_assoc, drop_app_length.
      apply Forall_app. split; by eapply Forall_impl.
  - intros diskConfig w out allDiskIds Hls Hgl.
    rewrite (symLinkDisks_matched d order diskConfig w out allDiskIds Hls Hgl).
    by destruct (findMatchingDisks _ _ _ _ w) as [[deviceMap e] w1].
Qed.

Lemma parsing_and_matching_never_fail_witness :
  symLinkDisks dStorage listOrder cfgNone (idle hNode) = report emptyMatch (idle hNode).
Proof.
  destruct (parsing_and_matching_never_fail dStorage listOrder) as (_ & _ & _ & Hcycle).
  pose proof (Hcycle cfgNone (idle hNode) (lsblk hNode).1 (globbed hNode).1 eq_refl eq_refl)
    as H.
  assert (Hrun : findMatchingDisks listOrder cfgNone (findNewDisks (lsblk hNode).1).1
                   (globbed hNode).1 (idle hNode) = ((∅, None), idle hNode))
    by (vm_compute; reflexivity).
  rewrite Hrun in H. exact H.
Defined.

(** ** Cycles on the node *)

Example cycle_links_device :
  let w := (symLinkDisks dStorage listOrder cfgByName (idle hNode)).2 in
  host w = hLinked ∧ reported w = [linkedEvent sdb]
  ∧ attempted w = [SysMkdirAll "/mnt/local-storage/ssd";
                   SysSymlink "/dev/disk/by-id/ata-NEW" "/mnt/local-storage/ssd/sdb"].
Proof. vm_compute. done. Qed.

Example cycle_again_changes_nothing :
  let w := (symLinkDisks dStorage listOrder cfgByName (idle hLinked)).2 in
  host w = hLinked ∧ reported w = [].
Proof. vm_compute. done. Qed.

Example cycle_broken_identifier :
  let w := (symLinkDisks dStorage listOrder cfgBroken (idle hNode)).2 in
  host w = hNode
  ∧ reported w = [resolutionFailed "/dev/disk/by-id/ata-X"; emptyMatch].
Proof. vm_compute. done. Qed.

Example cycle_shared_directory :
  let w := (symLinkDisks dStorage listOrder cfgShared (idle hNode)).2 in
  nodes (host w) = <["/mnt/local-storage/nfs" := Directory]>
                     (<["/rootfs/shared1" := Directory]> (nodes hNode))
  ∧ reported w = []
  ∧ attempted w = [SysMkdirAll "/rootfs/shared1"; SysMkdirAll "/mnt/local-storage/nfs"].
Proof. vm_compute. done. Qed.

Example cycle_listing_fails :
  let w := (symLinkDisks dStorage listOrder cfgByName (idle hNoListing)).2 in
  host w = hNoListing ∧ attempted w = []
  ∧ reported w = [newEvent ErrorRunningBlockList
                    "error running lsblk: exec: lsblk: executable file not found" ""].
Proof. vm_compute. done. Qed.

(** ** Stable identifiers *)

Lemma findStableDeviceID_error h diskName allDisks err :
  (findStableDeviceID h diskName allDisks).2 = Some err →
  (findStableDeviceID h diskName allDisks).1 = "".
Proof.
  induction allDisks as [|id more IH]; simpl; [done|].
  destruct (filepath.EvalSymlinks h id) as [dev|]; [|done].
  by destruct (String.eqb _ _).
Qed.

(** X1. [findStableDeviceID] answers the first of the identifier paths
    that leads to a device of the name asked for: it is one of the paths
    given, it resolves to a path whose base name is that name, and no
    path before it does; paths that do not resolve are passed over.
    When no path leads to the device it answers the empty identifier and
    the error that names the device. *)
Theorem findStableDeviceID_first (h : Host) (diskName : string) (allDisks : list string) :
  match findStableDeviceID h diskName allDisks with
  | (diskIDPath, None) =>
      ∃ before after diskDevPath,
        allDisks = before ++ diskIDPath :: after
        ∧ filepath.EvalSymlinks h diskIDPath = inl diskDevPath
        ∧ filepath.Base diskDevPath = diskName
        ∧ Forall (λ other, leadsTo h diskName other = false) before
  | (diskIDPath, Some err) =>
      diskIDPath = ""
      ∧ err = ErrorString ("unable to find ID of disk " +:+ diskName)
      ∧ Forall (λ other, leadsTo h diskName other = false) allDisks
  end.
Proof.
  induction allDisks as [|id more IH]; simpl; [by split; [|split]|].
  destruct (filepath.EvalSymlinks h id) as [dev|e] eqn:Hev.
  - destruct (String.eqb_spec (filepath.Base dev) diskName) as [Hb|Hb].
    + exists [], more, dev. by split; [|split; [|split]].
    + assert (Hid : leadsTo h diskName id = false).
      { unfold leadsTo. rewrite Hev. by apply eqb_false. }
      destruct (findStableDeviceID h diskName more) as [found [err|]].
      * destruct IH as (-> & -> & Hall). split; [done|split; [done|by constructor]].
      * destruct IH as (before & after & dev' & -> & ? & ? & ?).
        exists (id :: before), after, dev'. split; [done|split; [done|split; [done|by constructor]]].
  - assert (Hid : leadsTo h diskName id = false).
    { unfold leadsTo. by rewrite Hev. }
    destruct (findStableDeviceID h diskName more) as [found [err|]].
    + destruct IH as (-> & -> & Hall). split; [done|split; [done|by constructor]].
    + destruct IH as (before & after & dev' & -> & ? & ? & ?).
      exists (id :: before), after, dev'. split; [done|split; [done|split; [done|by constructor]]].
Qed.

(** One turn of the loop over the device names. *)
Lemma handleDiskName_run deviceSet allDiskIds storageClass name
    (blockDeviceMap : gmap string (list DiskLocation)) (w : World) :
  handleDiskName deviceSet allDiskIds storageClass name blockDeviceMap w
  = (addAll blockDeviceMap storageClass
       (option_list (nameAssignment (host w) deviceSet allDiskIds name)), w).
Proof.
  unfold handleDiskName, nameAssignment.
  destruct (hasExactDisk deviceSet (filepath.Base name)) eqn:Hhas.
  - apply hasExactDisk_elem in Hhas. rewrite decide_True by done.
    unfold bind, ask.
    pose proof (findStableDeviceID_error (host w) (filepath.Base name) allDiskIds) as Herr.
    destruct (findStableDeviceID (host w) (filepath.Base name) allDiskIds) as [id [err|]];
      simpl in *; [|done].
    by rewrite (Herr err eq_refl).
  - rewrite decide_False; [done|].
    intros Hin%hasExactDisk_elem. congruence.
Qed.

(** X2. The pass over the device names of a storage class reads the
    host only: it reports nothing and makes no changing call, the world
    after it is the world before it.  It treats every name by itself,
    in order: a name whose base name is among the unmounted devices
    adds one assignment with the configured name as device path and the
    identifier [findStableDeviceID] answers for the base name (the empty
    identifier when there is none, which is not an error of the pass);
    any other name adds nothing.  The map after the pass is told entry
    by entry: the lists of the other classes are what they were, and
    the list of the class is what it was followed by the assignments
    added, in the order of the names. *)
Theorem deviceName_pass (deviceSet : gset string) (allDiskIds : list string)
    (storageClass : string) (deviceNames : list string)
    (blockDeviceMap : gmap string (list DiskLocation)) (w : World) :
  let '(blockDeviceMap', w') :=
    forEachWith deviceNames (handleDiskName deviceSet allDiskIds storageClass)
      blockDeviceMap w in
  let added := omap (nameAssignment (host w) deviceSet allDiskIds) deviceNames in
  w' = w
  ∧ blockDeviceMap' = addAll blockDeviceMap storageClass added
  ∧ (∀ sc, sc ≠ storageClass → blockDeviceMap' !! sc = blockDeviceMap !! sc)
  ∧ blockDeviceMap' !! storageClass
    = match added with
      | [] => blockDeviceMap !! storageClass
      | _ => Some (default [] (blockDeviceMap !! storageClass) ++ added)
      end.
Proof.
  assert (Hrun : forEachWith deviceNames (handleDiskName deviceSet allDiskIds storageClass)
                   blockDeviceMap w
                 = (addAll blockDeviceMap storageClass
                      (omap (nameAssignment (host w) deviceSet allDiskIds) deviceNames), w)).
  { revert blockDeviceMap. induction deviceNames as [|name more IH]; intros m; [done|].
    cbn [forEachWith omap list_omap]. unfold bind. rewrite handleDiskName_run.
    destruct (nameAssignment (host w) deviceSet allDiskIds name) as [loc|].
    - rewrite IH. reflexivity.
    - apply IH. }
  assert (Hlookup : ∀ locs (m : gmap string (list DiskLocation)) sc,
            addAll m storageClass locs !! sc
            = if decide (storageClass = sc) then
                match locs with
                | [] => m !! storageClass
                | _ => Some (default [] (m !! storageClass) ++ locs)
                end
              else m !! sc).
  { induction locs as [|[name id dir] more IH]; intros m sc.
    { simpl. by destruct (decide (storageClass = sc)) as [<-|]. }
    change (addAll m storageClass (MkDiskLocation name id dir :: more))
      with (addAll (addDiskToMap m storageClass id name dir) storageClass more).
    rewrite IH. unfold addDiskToMap. destruct (decide (storageClass = sc)) as [<-|Hne].
    - rewrite lookup_insert_eq. simpl.
      destruct more as [|loc more]; [done|]. by rewrite <- app_assoc.
    - by rewrite lookup_insert_ne. }
  rewrite Hrun. cbv zeta. split; [done|]. split; [done|]. split.
  - intros sc Hne. rewrite Hlookup. by rewrite decide_False.
  - rewrite Hlookup. by rewrite decide_True.
Qed.

Lemma deviceName_pass_witness :
  (forEachWith ["/dev/sda"; "/dev/sdb"; "/dev/sdc"]
     (handleDiskName {[ "sdb"; "sdc" ]} ["/dev/disk/by-id/ata-NEW"] "ssd") ∅ (idle hNode)).1
    !! "ssd"
  = Some [MkDiskLocation "/dev/sdb" "/dev/disk/by-id/ata-NEW" "";
          MkDiskLocation "/dev/sdc" "" ""].
Proof.
  pose proof (deviceName_pass {[ "sdb"; "sdc" ]} ["/dev/disk/by-id/ata-NEW"] "ssd"
                ["/dev/sda"; "/dev/sdb"; "/dev/sdc"] ∅ (idle hNode)) as H.
  destruct (forEachWith _ _ ∅ (idle hNode)) as [m' w'].
  destruct H as (_ & _ & _ & Hm). simpl. rewrite Hm. vm_compute. reflexivity.
Defined.

(** X3. [hasExactDisk] is membership in the set: the device is matched
    by its whole name, so a device whose name only starts with, or is
    the start of, the name of a member is not matched. *)
Theorem hasExactDisk_member (disks : gset string) (device : string) :
  hasExactDisk disks device = bool_decide (device ∈ disks).
Proof.
  destruct (hasExactDisk disks device) eqn:Hhas.
  - symmetry. by apply bool_decide_eq_true, hasExactDisk_elem.
  - symmetry. apply bool_decide_eq_false. intros Hin%hasExactDisk_elem. congruence.
Qed.

(** ** What the matcher assigns *)

Lemma forEachWith_both {A S} (Inv : S → World → Prop) (items : list A) (body : A → S → M S) :
  (∀ item s w, item ∈ items → Inv s w → Inv (body item s w).1 (body item s w).2) →
  ∀ s w, Inv s w → Inv (forEachWith items body s w).1 (forEachWith items body s w).2.
Proof.
  induction items as [|item more IH]; intros Hb s w Hs; simpl; [done|].
  unfold bind. pose proof (Hb item s w (list_elem_of_here _ _) Hs) as H1.
  destruct (body item s w) as [s1 w1]. simpl in H1.
  apply IH; [|done]. intros. apply Hb; [by right|done].
Qed.

Lemma findStableDeviceID_found h diskName allDisks id :
  findStableDeviceID h diskName allDisks = (id, None) →
  id ∈ allDisks
  ∧ ∃ dev, filepath.EvalSymlinks h id = inl dev ∧ filepath.Base dev = diskName.
Proof.
  induction allDisks as [|id' more IH]; simpl; [done|].
  destruct (filepath.EvalSymlinks h id') as [dev|e] eqn:Hev.
  - destruct (String.eqb_spec (filepath.Base dev) diskName) as [Hb|Hb].
    + intros [= <-]. split; [by left|]. by exists dev.
    + intros [Hin Hdev]%IH. split; [by right|done].
  - intros [Hin Hdev]%IH. split; [by right|done].
Qed.

Lemma sound_grows deviceSet m w w' : worldGrows w w' → sound deviceSet m w → sound deviceSet m w'.
Proof.
  intros Hg Hm sc loc Hin. destruct (Hm sc loc Hin) as [(Hdir & Hbase & Hid)|(Hn & Hi & Hs)].
  - left. split; [done|]. split; [done|]. intros Hne.
    destruct (Hid Hne) as (dev & Hev & Hb). exists dev. split; [|done].
    by apply (EvalSymlinks_grows (host w)).
  - right. split; [done|]. split; [done|]. by apply (Stat_grows (host w)).
Qed.

Lemma sound_add deviceSet m w sc stable name dir :
  deviceAssignment deviceSet (host w) (MkDiskLocation name stable dir)
    ∨ directoryAssignment (host w) (MkDiskLocation name stable dir) →
  sound deviceSet m w → sound deviceSet (addDiskToMap m sc stable name dir) w.
Proof.
  intros Hloc Hm sc' loc. rewrite assignmentsOf_add.
  destruct (decide (sc = sc')) as [<-|]; [|apply Hm].
  intros [Hin|Hin%list_elem_of_singleton]%elem_of_app; [by apply (Hm sc)|]. by subst.
Qed.

Lemma handleDiskName_sound deviceSet ids sc name m w :
  sound deviceSet m w →
  sound deviceSet (handleDiskName deviceSet ids sc name m w).1
    (handleDiskName deviceSet ids sc name m w).2.
Proof.
  intros Hm. unfold handleDiskName.
  destruct (hasExactDisk deviceSet (filepath.Base name)) eqn:Hhas; [|done].
  apply hasExactDisk_elem in Hhas. unfold bind, ask.
  destruct (findStableDeviceID (host w) (filepath.Base name) ids) as [id [err|]] eqn:Hfind;
    simpl; (apply sound_add; [left|done]).
  - by split; [|split].
  - split; [done|]. split; [done|]. intros _. simpl.
    by destruct (findStableDeviceID_found _ _ _ _ Hfind) as [_ ?].
Qed.

Lemma handleDeviceID_sound deviceSet sc id m w :
  sound deviceSet m w →
  sound deviceSet (handleDeviceID deviceSet sc id m w).1 (handleDeviceID deviceSet sc id m w).2.
Proof.
  intros Hm. unfold handleDeviceID, bind, ask, findDeviceByID.
  destruct (filepath.EvalSymlinks (host w) id) as [dev|] eqn:Hev; simpl; [|done].
  destruct (hasExactDisk deviceSet (filepath.Base dev)) eqn:Hhas; [|done].
  apply hasExactDisk_elem in Hhas. simpl. apply sound_add; [left|done].
  split; [done|]. split; [done|]. intros _. by exists dev.
Qed.

Lemma handleDirectory_sound deviceSet sc directory m w :
  sound deviceSet m w →
  sound deviceSet (handleDirectory sc directory m w).1 (handleDirectory sc directory m w).2.
Proof.
  intros Hm. unfold handleDirectory, bind, ask.
  destruct (fileExists (host w) (path.Join rootfsDir directory)).
  - unfold isDir, os.Open.
    destruct (os.Stat (host w) (path.Join rootfsDir directory)) as [node|[]] eqn:Hs; simpl;
      try done.
    destruct (bool_decide_reflect (node = Directory)) as [->|]; simpl; [|done].
    apply sound_add; [right|done]. by split; [|split].
  - pose proof (callMkdirAll_frame (path.Join rootfsDir directory) w) as Hf.
    pose proof (worldGrows_callMkdirAll (path.Join rootfsDir directory) w) as Hg.
    destruct (callMkdirAll (path.Join rootfsDir directory) w) as [[err|] w1]; simpl in *.
    + by apply (sound_grows _ _ w).
    + destruct Hf as (_ & _ & Hmade & _).
      apply sound_add; [right|by apply (sound_grows _ _ w)].
      split; [done|]. split; [done|]. by apply Hmade.
Qed.

Lemma handleStorageClass_sound deviceSet ids entry m w :
  sound deviceSet m w →
  sound deviceSet (handleStorageClass deviceSet ids entry m w).1
    (handleStorageClass deviceSet ids entry m w).2.
Proof.
  destruct entry as [sc disks]. intros Hm. unfold handleStorageClass, bind.
  pose proof (forEachWith_both (sound deviceSet) (sets.List (DeviceNames disks))
    (handleDiskName deviceSet ids sc)
    (λ name s w' _, handleDiskName_sound deviceSet ids sc name s w') m w Hm) as H1.
  destruct (forEachWith (sets.List (DeviceNames disks)) _ m w) as [m1 w1].
  pose proof (forEachWith_both (sound deviceSet) (sets.List (DeviceIDs disks))
    (handleDeviceID deviceSet sc)
    (λ id s w' _, handleDeviceID_sound deviceSet sc id s w') m1 w1 H1) as H2.
  destruct (forEachWith (sets.List (DeviceIDs disks)) _ m1 w1) as [m2 w2].
  apply (forEachWith_both (sound deviceSet)); [|done].
  intros directory s w' _. apply handleDirectory_sound.
Qed.

Lemma findMatchingDisks_sound order cfg deviceSet ids w :
  sound deviceSet (findMatchingDisks order cfg deviceSet ids w).1.1
    (findMatchingDisks order cfg deviceSet ids w).2.
Proof.
  unfold findMatchingDisks, bind.
  pose proof (forEachWith_both (sound deviceSet) (rangeOver order (ConfigDisks cfg))
    (handleStorageClass deviceSet ids)
    (λ entry s w' _, handleStorageClass_sound deviceSet ids entry s w') ∅ w) as Hinv.
  destruct (forEachWith _ _ ∅ w) as [m w']. simpl in *. apply Hinv.
  intros sc loc Hin. unfold assignmentsOf in Hin. rewrite lookup_empty in Hin.
  by apply elem_of_nil in Hin.
Qed.

(** X4. Every assignment [findMatchingDisks] returns is of one of two
    kinds, told on the host as the matcher leaves it.  A device
    assignment has no directory path, the base name of its device path
    is among the unmounted devices (a device that the listing shows
    mounted is never assigned, under a name or under an identifier), and
    its identifier, when it has one, leads to a device of the same base
    name.  A directory assignment has no device path and no identifier,
    and its directory path is a directory. *)
Theorem findMatchingDisks_assigns_unmounted (order : MapRange) (diskConfig : DiskConfig)
    (deviceSet : gset string) (allDiskIds : list string) (w : World) :
  let '((deviceMap, _), w') := findMatchingDisks order diskConfig deviceSet allDiskIds w in
  ∀ storageClass deviceArray loc,
    deviceMap !! storageClass = Some deviceArray → loc ∈ deviceArray →
    (directoryPath loc = ""
     ∧ filepath.Base (diskNamePath loc) ∈ deviceSet
     ∧ (diskID loc ≠ "" →
        ∃ diskDevPath, filepath.EvalSymlinks (host w') (diskID loc) = inl diskDevPath
          ∧ filepath.Base diskDevPath = filepath.Base (diskNamePath loc)))
    ∨ (diskNamePath loc = "" ∧ diskID loc = ""
       ∧ os.Stat (host w') (directoryPath loc) = inl Directory).
Proof.
  pose proof (findMatchingDisks_sound order diskConfig deviceSet allDiskIds w) as Hs.
  destruct (findMatchingDisks order diskConfig deviceSet allDiskIds w) as [[deviceMap e] w'].
  simpl in Hs. intros sc deviceArray loc Hsc Hin. apply (Hs sc loc).
  unfold assignmentsOf. by rewrite Hsc.
Qed.

(** ** A configured directory that is not there *)

Lemma notThere_fileExists h p : notThere h p → fileExists h p = false.
Proof.
  intros [Hl _]. unfold fileExists, os.Stat. unfold os.Lstat in Hl.
  destruct (String.eqb p ""); [done|].
  change (resolve 40) with (resolve (S 39)). cbn [resolve].
  destruct (decide (path.Clean p ∈ denied h)); [done|].
  by destruct (nodes h !! path.Clean p).
Qed.

(** X5. For a configured directory at whose path under the root file
    system nothing lies, with nothing but directories above it, the
    pass over the directories makes one changing call, the
    [os.MkdirAll] of that path, which leaves everything that was on the
    host in place.  When the call succeeds nothing is reported, the
    directory assignment is added at the end of the list of the class
    and the path is a directory from then on, so that a further turn
    for the same directory makes no call and adds the assignment once
    more.  When it fails, one error event that
    carries the error is reported and no assignment is added. *)
Theorem handleDirectory_missing (storageClass directory : string)
    (blockDeviceMap : gmap string (list DiskLocation)) (w : World) :
  let sharedDirPath := path.Join rootfsDir directory in
  notThere (host w) sharedDirPath →
  let '(blockDeviceMap', w') := handleDirectory storageClass directory blockDeviceMap w in
  attempted w' = attempted w ++ [SysMkdirAll sharedDirPath]
  ∧ hostGrows (host w) (host w')
  ∧ match os.MkdirAll (host w) sharedDirPath with
    | (h', None) =>
        host w' = h' ∧ reported w' = reported w
        ∧ blockDeviceMap' = addDiskToMap blockDeviceMap storageClass "" "" sharedDirPath
        ∧ blockDeviceMap' !! storageClass
          = Some (default [] (blockDeviceMap !! storageClass)
                  ++ [MkDiskLocation "" "" sharedDirPath])
        ∧ os.Stat (host w') sharedDirPath = inl Directory
        ∧ handleDirectory storageClass directory blockDeviceMap' w'
          = (addDiskToMap blockDeviceMap' storageClass "" "" sharedDirPath, w')
    | (h', Some err) =>
        host w' = h'
        ∧ reported w' = reported w ++
            [newEvent ErrorCreatingSharedDir
               ("error creating shared dir " +:+ sharedDirPath +:+ ": " +:+ Error err) ""]
        ∧ blockDeviceMap' = blockDeviceMap
    end.
Proof.
  intros sharedDirPath Hex%notThere_fileExists. unfold handleDirectory at 1, bind, ask.
  fold sharedDirPath. rewrite Hex. unfold callMkdirAll.
  pose proof (MkdirAll_grows (host w) sharedDirPath) as Hg.
  destruct (os.MkdirAll (host w) sharedDirPath) as [h' [err|]] eqn:Hmk; simpl in *.
  - split; [done|]. split; [done|]. by split; [|split].
  - apply MkdirAll_made in Hmk.
    split; [done|]. split; [done|]. split; [done|]. split; [done|]. split; [done|].
    split.
    { unfold addDiskToMap. rewrite lookup_insert_eq.
      by destruct (blockDeviceMap !! storageClass). }
    split; [done|].
    unfold handleDirectory, bind, ask. fold sharedDirPath. cbn [host].
    rewrite (Stat_dir_exists _ _ _ Hmk). cbv iota beta. unfold isDir, os.Open.
    cbn [host]. rewrite Hmk. cbv iota beta. reflexivity.
Qed.

Lemma handleDirectory_missing_witness :
  let '(blockDeviceMap', w') := handleDirectory "nfs" "shared1" ∅ (idle hNode) in
  attempted w' = [SysMkdirAll "/rootfs/shared1"]
  ∧ reported w' = []
  ∧ blockDeviceMap' = {[ "nfs" := [shared1] ]}
  ∧ os.Stat (host w') "/rootfs/shared1" = inl Directory.
Proof.
  assert (Hnot : notThere (host (idle hNode)) (path.Join rootfsDir "shared1")).
  { split; [reflexivity|].
    change (os.ancestorsOf (path.Join rootfsDir "shared1")) with ["/rootfs"].
    constructor; [|constructor]. split; [apply not_elem_of_empty|by right]. }
  pose proof (handleDirectory_missing "nfs" "shared1" ∅ (idle hNode) Hnot) as H.
  destruct (handleDirectory "nfs" "shared1" ∅ (idle hNode)) as [m' w'].
  destruct H as (Ha & _ & H).
  destruct (os.MkdirAll (host (idle hNode)) (path.Join rootfsDir "shared1")) as [h' [err|]] eqn:Hmk;
    [vm_compute in Hmk; discriminate Hmk|].
  destruct H as (_ & Hr & Hm & _ & Hs & _). by repeat split.
Defined.

(** ** What a cycle does to the host *)

Lemma worldGrows_callSymlink old new : always worldGrows (callSymlink old new).
Proof.
  intros w. unfold callSymlink, worldGrows.
  pose proof (OsSymlink_grows (host w) old new). by destruct (os.Symlink (host w) old new).
Qed.

Lemma symLinkDisk_worldGrows d sc loc : always worldGrows (symLinkDisk d sc loc).
Proof.
  unfold symLinkDisk. always_steps;
    first [apply worldGrows_report | apply worldGrows_callMkdirAll
          | apply worldGrows_callSymlink].
Qed.

Lemma symLinkDisks_worldGrows d order cfg : always worldGrows (symLinkDisks d order cfg).
Proof.
  unfold symLinkDisks. always_steps; try apply worldGrows_report.
  - unfold findMatchingDisks. always_steps. apply handleStorageClass_worldGrows.
  - unfold symLinkAll. always_steps. apply symLinkDisk_worldGrows.
Qed.

(** X6. A cycle only adds to the host: every entry of the file system
    is after the cycle what it was before, so no file, directory or link
    is removed or replaced (a link that is there is never pointed
    elsewhere), and a path that led to a node before the cycle leads to
    the same node after it. *)
Theorem symLinkDisks_only_adds (d : DiskMaker) (order : MapRange) (diskConfig : DiskConfig)
    (w : World) :
  let w' := (symLinkDisks d order diskConfig w).2 in
  (∀ p node, nodes (host w) !! p = Some node → nodes (host w') !! p = Some node)
  ∧ (∀ p node, os.Stat (host w) p = inl node → os.Stat (host w') p = inl node)
  ∧ (∀ p q, filepath.EvalSymlinks (host w) p = inl q →
            filepath.EvalSymlinks (host w') p = inl q).
Proof.
  pose proof (symLinkDisks_worldGrows d order diskConfig w) as Hg. simpl.
  split; [|split].
  - intros p node Hp. destruct Hg as (Hn & _). by eapply lookup_weaken.
  - intros p node. by apply Stat_grows.
  - intros p q. by apply EvalSymlinks_grows.
Qed.

(** ** The links and the success events of a cycle *)

Lemma acts_preorder P Q : PreOrder (acts P Q).
Proof.
  split.
  - intros w. by split.
  - intros w1 w2 w3 [? ?] [? ?]. split; by etrans.
Qed.
Global Existing Instance acts_preorder.

Lemma acts_mono (P P' : Syscall → Prop) (Q Q' : event → Prop) w w' :
  (∀ c, P c → P' c) → (∀ e, Q e → Q' e) → acts P Q w w' → acts P' Q' w w'.
Proof.
  intros HP HQ [(calls & ? & ?) (evs & ? & ?)]. split.
  - exists calls. split; [done|]. by eapply Forall_impl.
  - exists evs. split; [done|]. by eapply Forall_impl.
Qed.

Lemma acts_report P (Q : event → Prop) e : Q e → always (acts P Q) (report e).
Proof.
  intros He w. split.
  - exists []. simpl. by rewrite app_nil_r.
  - exists [e]. split; [done|]. by constructor.
Qed.

Lemma acts_callMkdirAll (P : Syscall → Prop) Q p :
  P (SysMkdirAll p) → always (acts P Q) (callMkdirAll p).
Proof.
  intros Hp w. unfold callMkdirAll. destruct (os.MkdirAll (host w) p). split; simpl.
  - exists [SysMkdirAll p]. split; [done|]. by constructor.
  - exists []. by rewrite app_nil_r.
Qed.

Lemma always_forEach_in (R : relation World) `{!PreOrder R} {A} (items : list A)
    (body : A → M unit) :
  (∀ item, item ∈ items → always R (body item)) → always R (forEach items body).
Proof.
  induction items as [|item more IH]; intros Hb; simpl.
  - by apply always_ret.
  - apply always_bind; [done|apply Hb; by left|]. intros _. apply IH.
    intros. apply Hb. by right.
Qed.

Lemma findMatchingDisks_acts order cfg deviceSet ids :
  always (acts isMkdirAll isError) (findMatchingDisks order cfg deviceSet ids).
Proof.
  unfold findMatchingDisks. always_steps.
  unfold handleStorageClass. always_steps.
  - unfold handleDiskName. always_steps.
  - unfold handleDeviceID. always_steps. by apply acts_report.
  - unfold handleDirectory. always_steps;
      first [by apply acts_report | apply acts_callMkdirAll; by eexists].
Qed.

(** The turn for a directory assignment ends once the class directory
    is there. *)
Lemma symLinkDisk_shared d sc loc w w1 :
  directoryPath loc ≠ "" → diskNamePath loc = "" →
  callMkdirAll (classDir d sc) w = (None, w1) →
  symLinkDisk d sc loc w = (tt, w1).
Proof.
  intros Hdir Hdev Hmk.
  pose proof (callMkdirAll_frame (classDir d sc) w) as Hf. rewrite Hmk in Hf.
  destruct Hf as (_ & _ & Hmade & _). specialize (Hmade eq_refl).
  assert (Hpath : linkPath d sc loc = classDir d sc).
  { unfold linkPath. rewrite Hdev. change (filepath.Base "") with ".".
    unfold classDir. apply Join_dot. fold (classDir d sc).
    intros Hempty. by rewrite Hempty in Hmade. }
  unfold symLinkDisk, bind. fold (classDir d sc). rewrite Hmk. simpl.
  rewrite bool_decide_true by done. unfold ask.
  destruct (fileExists (host w1) (path.Join _ (generateBindName _ _))); [done|].
  fold (linkPath d sc loc). by rewrite Hpath, (Stat_dir_exists _ _ _ Hmade).
Qed.

Lemma symLinkDisk_acts d sc loc :
  deviceOrDirectory loc →
  always (acts
            (λ c, isMkdirAll c
                  ∨ (directoryPath loc = ""
                     ∧ c = SysSymlink (linkTargetOf loc) (linkPath d sc loc)))
            (λ e, isError e ∨ (directoryPath loc = "" ∧ e = linkedEvent loc)))
    (symLinkDisk d sc loc).
Proof.
  intros Hkind w.
  pose proof (callMkdirAll_frame (classDir d sc) w) as Hf.
  destruct (callMkdirAll (classDir d sc) w) as [[err|] w1] eqn:Hmk.
  - destruct Hf as (Hr & Ha & _).
    rewrite (symLinkDisk_class_dir_failed d sc loc w err w1 Hmk). simpl. split.
    + exists [SysMkdirAll (classDir d sc)]. split; [done|]. constructor; [|done].
      left. by eexists.
    + exists [newEvent ErrorFindingMatchingDisk
                ("error creating symlink dir " +:+ classDir d sc +:+ ": " +:+ Error err) ""].
      split; [by rewrite Hr|]. constructor; [by left|done].
  - destruct Hf as (Hr & Ha & _).
    assert (Hidle : acts
              (λ c, isMkdirAll c
                    ∨ (directoryPath loc = ""
                       ∧ c = SysSymlink (linkTargetOf loc) (linkPath d sc loc)))
              (λ e, isError e ∨ (directoryPath loc = "" ∧ e = linkedEvent loc)) w w1).
    { split.
      - exists [SysMkdirAll (classDir d sc)]. split; [done|]. constructor; [|done].
        left. by eexists.
      - exists []. by rewrite app_nil_r. }
    destruct Hkind as [Hdir|[Hdev Hdir]].
    + destruct (fileExists (host w1) (linkPath d sc loc)) eqn:Hex.
      { by rewrite (symLinkDisk_skips d sc loc w w1 Hdir Hmk Hex). }
      pose proof (symLinkDisk_links d sc loc w w1 Hdir Hmk Hex) as Hrun.
      destruct (os.Symlink (host w1) (linkTargetOf loc) (linkPath d sc loc)) as [h2 symLinkErr].
      rewrite Hrun. simpl. etrans; [exact Hidle|]. split; simpl.
      * exists [SysSymlink (linkTargetOf loc) (linkPath d sc loc)]. split; [done|].
        constructor; [by right|done].
      * eexists. split; [done|]. apply Forall_app. split.
        -- destruct symLinkErr; [|done]. constructor; [by left|done].
        -- constructor; [by right|done].
    + by rewrite (symLinkDisk_shared d sc loc w w1 Hdir Hdev Hmk).
Qed.

Lemma symLinkAll_acts d order deviceMap (P : string → DiskLocation → Prop) :
  (∀ sc deviceArray loc, deviceMap !! sc = Some deviceArray → loc ∈ deviceArray →
     deviceOrDirectory loc ∧ (directoryPath loc = "" → P sc loc)) →
  always (acts
            (λ c, isMkdirAll c
                  ∨ ∃ sc loc, P sc loc
                      ∧ c = SysSymlink (linkTargetOf loc) (linkPath d sc loc))
            (λ e, isError e ∨ ∃ sc loc, P sc loc ∧ e = linkedEvent loc))
    (symLinkAll d order deviceMap).
Proof.
  intros Hmap. unfold symLinkAll.
  apply always_forEach_in; [apply _|]. intros [sc deviceArray] Hsc%range_elem.
  apply always_forEach_in; [apply _|]. intros loc Hloc w.
  destruct (Hmap sc deviceArray loc Hsc Hloc) as [Hkind HP].
  eapply acts_mono; [| |apply (symLinkDisk_acts d sc loc Hkind w)].
  - intros c [?|[Hdir ->]]; [by left|]. right. exists sc, loc. auto.
  - intros e [?|[Hdir ->]]; [by left|]. right. exists sc, loc. auto.
Qed.

Lemma selected_device cfg unmounted sc disks loc :
  ConfigDisks cfg !! sc = Some disks → selectedBy disks loc →
  directoryPath loc = "" → filepath.Base (diskNamePath loc) ∈ unmounted →
  configuredDevice cfg unmounted sc loc.
Proof.
  intros Hcfg Hsel Hdir Hbase. exists disks. split; [done|].
  destruct Hsel as [[Hname _]|[(Hid & _)|[(dir & _ & Hpath) _]]].
  - by split; [left|].
  - by split; [right|].
  - rewrite Hpath in Hdir. by destruct (Join_rootfs_nonempty dir).
Qed.

Lemma matchedDevice_grows cfg unmounted deviceMap h h' sc loc :
  hostGrows h h' → matchedDevice cfg unmounted deviceMap h sc loc →
  matchedDevice cfg unmounted deviceMap h' sc loc.
Proof.
  intros Hg (Hin & Hcfg & Hid). split; [done|]. split; [done|]. intros Hne.
  destruct (Hid Hne) as (dev & Hev & Hb). exists dev. split; [|done].
  by apply (EvalSymlinks_grows h).
Qed.

Lemma symLinkAll_worldGrows d order deviceMap :
  always worldGrows (symLinkAll d order deviceMap).
Proof. unfold symLinkAll. always_steps. apply symLinkDisk_worldGrows. Qed.

Lemma symLinkDisks_acts d order cfg w :
  let unmounted := (findNewDisks (lsblk (host w)).1).1 in
  let deviceMap := (findMatchingDisks order cfg unmounted (globbed (host w)).1 w).1.1 in
  let w' := (symLinkDisks d order cfg w).2 in
  acts (λ c, isMkdirAll c
             ∨ ∃ sc loc, matchedDevice cfg unmounted deviceMap (host w') sc loc
                 ∧ c = SysSymlink (linkTargetOf loc) (linkPath d sc loc))
       (λ e, isError e
             ∨ ∃ sc loc, matchedDevice cfg unmounted deviceMap (host w') sc loc
                 ∧ e = linkedEvent loc)
    w w'.
Proof.
  cbv zeta. rewrite symLinkDisks_live.
  destruct (lsblk (host w)) as [out err]. cbn [fst].
  destruct (bool_decide (err ≠ None)); [by apply acts_report; left|].
  destruct (globbed (host w)) as [allDiskIds err']. cbn [fst].
  destruct (bool_decide (err' ≠ None)); [by apply acts_report; left|].
  pose proof (findMatchingDisks_acts order cfg (findNewDisks out).1 allDiskIds w) as Hmatch.
  pose proof (findMatchingDisks_selection order cfg (findNewDisks out).1 allDiskIds w) as Hsel.
  pose proof (findMatchingDisks_sound order cfg (findNewDisks out).1 allDiskIds w) as Hsound.
  destruct (findMatchingDisks order cfg (findNewDisks out).1 allDiskIds w)
    as [[deviceMap e] w1].
  cbn [fst snd] in *.
  etrans; [eapply acts_mono; [| |exact Hmatch]; by left|].
  destruct (size deviceMap =? 0); [by apply acts_report; left|].
  pose proof (symLinkAll_worldGrows d order deviceMap w1) as Hgrow.
  eapply acts_mono;
    [| |apply (symLinkAll_acts d order deviceMap
                 (matchedDevice cfg (findNewDisks out).1 deviceMap (host w1)))].
  - intros c [?|(sc & loc & Hm & ->)]; [by left|]. right. exists sc, loc.
    split; [|done]. by apply (matchedDevice_grows _ _ _ (host w1)).
  - intros ev [?|(sc & loc & Hm & ->)]; [by left|]. right. exists sc, loc.
    split; [|done]. by apply (matchedDevice_grows _ _ _ (host w1)).
  - intros sc deviceArray loc Hsc Hloc.
    assert (Hin : loc ∈ assignmentsOf deviceMap sc).
    { unfold assignmentsOf. by rewrite Hsc. }
    destruct (Hsel sc loc Hin) as (disks & Hcfg & Hby).
    destruct (Hsound sc loc Hin) as [(Hdir & Hbase & Hid)|(Hdev & _ & Hstat)].
    + split; [by left|]. intros _. split; [by exists deviceArray|].
      split; [by eapply selected_device|done].
    + assert (Hne : directoryPath loc ≠ "").
      { intros Heq. by rewrite Heq in Hstat. }
      split; [by right|]. done.
Qed.

(** X7. Every [os.Symlink] a cycle calls is for an assignment that
    the matcher returned in that cycle for a storage class: a device
    assignment the configuration asks for, under a device name or under
    an identifier of the class, whose device is among the unmounted
    devices of the listing of the cycle and whose identifier, when it
    has one, leads to a device of the same base name.  The link is
    placed in the directory of the class under the base name of the
    device and points to the identifier of the assignment, or to its
    device path when it has none.  The other changing calls are calls
    of [os.MkdirAll].  So a cycle makes no link for a device the listing
    shows mounted, and none for a shared directory. *)
Theorem symLinkDisks_links_unmounted (d : DiskMaker) (order : MapRange)
    (diskConfig : DiskConfig) (w : World) :
  let unmounted := (findNewDisks (lsblk (host w)).1).1 in
  let deviceMap :=
    (findMatchingDisks order diskConfig unmounted (globbed (host w)).1 w).1.1 in
  let w' := (symLinkDisks d order diskConfig w).2 in
  ∃ calls, attempted w' = attempted w ++ calls
    ∧ ∀ call, call ∈ calls →
        (∃ p, call = SysMkdirAll p)
        ∨ ∃ storageClass deviceArray disks loc,
            deviceMap !! storageClass = Some deviceArray ∧ loc ∈ deviceArray
            ∧ ConfigDisks diskConfig !! storageClass = Some disks
            ∧ (diskNamePath loc ∈ DeviceNames disks ∨ diskID loc ∈ DeviceIDs disks)
            ∧ directoryPath loc = ""
            ∧ filepath.Base (diskNamePath loc) ∈ unmounted
            ∧ (diskID loc ≠ "" →
               ∃ diskDevPath,
                 filepath.EvalSymlinks (host w') (diskID loc) = inl diskDevPath
                 ∧ filepath.Base diskDevPath = filepath.Base (diskNamePath loc))
            ∧ call = SysSymlink
                       (if bool_decide (diskID loc ≠ "") then diskID loc else diskNamePath loc)
                       (path.Join (path.Join (symlinkLocation d) storageClass)
                          (filepath.Base (diskNamePath loc))).
Proof.
  destruct (symLinkDisks_acts d order diskConfig w) as [(calls & Hcalls & Hall) _].
  exists calls. split; [done|]. intros call Hin.
  rewrite Forall_forall in Hall.
  destruct (Hall call Hin)
    as [?|(sc & loc & ((arr & ? & ?) & (disks & ? & ? & ? & ?) & ?) & ->)]; [by left|].
  right. by exists sc, arr, disks, loc.
Qed.

Lemma symLinkDisks_links_unmounted_witness :
  Forall (λ call, (∃ p, call = SysMkdirAll p)
                  ∨ call = SysSymlink "/dev/disk/by-id/ata-NEW" "/mnt/local-storage/ssd/sdb")
    (attempted (symLinkDisks dStorage listOrder cfgByName (idle hNode)).2).
Proof.
  destruct (symLinkDisks_links_unmounted dStorage listOrder cfgByName (idle hNode))
    as (calls & Hcalls & Hall).
  simpl in Hcalls. rewrite Hcalls. apply Forall_forall. intros call Hin.
  destruct (Hall _ Hin)
    as [?|(sc & arr & disks & loc & Hsc & Hloc & _ & _ & _ & _ & _ & Hcall)]; [by left|].
  right.
  assert (Hmap : (findMatchingDisks listOrder cfgByName
                    (findNewDisks (lsblk (host (idle hNode))).1).1
                    (globbed (host (idle hNode))).1 (idle hNode)).1.1
                 = {[ "ssd" := [sdb] ]}) by (vm_compute; reflexivity).
  rewrite Hmap in Hsc. apply lookup_singleton_Some in Hsc as [<- <-].
  apply list_elem_of_singleton in Hloc as ->. exact Hcall.
Defined.

(** X8. Every success event of a cycle is the event for an assignment
    that the matcher returned in that cycle for a storage class: a
    device assignment the configuration asks for, under a device name
    or under an identifier of the class, whose device is among the
    unmounted devices of the listing of the cycle and whose identifier,
    when it has one, leads to a device of the same base name; the event
    names the device path of the assignment.  Every other event of the
    cycle is an error event.  So no success is reported for a shared
    directory or for a device the listing shows mounted. *)
Theorem symLinkDisks_success_unmounted (d : DiskMaker) (order : MapRange)
    (diskConfig : DiskConfig) (w : World) :
  let unmounted := (findNewDisks (lsblk (host w)).1).1 in
  let deviceMap :=
    (findMatchingDisks order diskConfig unmounted (globbed (host w)).1 w).1.1 in
  let w' := (symLinkDisks d order diskConfig w).2 in
  ∃ evs, reported w' = reported w ++ evs
    ∧ ∀ e, e ∈ evs →
        eventType e = ErrorEvent
        ∨ ∃ storageClass deviceArray disks loc,
            deviceMap !! storageClass = Some deviceArray ∧ loc ∈ deviceArray
            ∧ ConfigDisks diskConfig !! storageClass = Some disks
            ∧ (diskNamePath loc ∈ DeviceNames disks ∨ diskID loc ∈ DeviceIDs disks)
            ∧ directoryPath loc = ""
            ∧ filepath.Base (diskNamePath loc) ∈ unmounted
            ∧ (diskID loc ≠ "" →
               ∃ diskDevPath,
                 filepath.EvalSymlinks (host w') (diskID loc) = inl diskDevPath
                 ∧ filepath.Base diskDevPath = filepath.Base (diskNamePath loc))
            ∧ e = newSuccessEvent FoundMatchingDisk
                    ("found matching disk " +:+ filepath.Base (diskNamePath loc))
                    (diskNamePath loc).
Proof.
  destruct (symLinkDisks_acts d order diskConfig w) as [_ (evs & Hevs & Hall)].
  exists evs. split; [done|]. intros e Hin.
  rewrite Forall_forall in Hall.
  destruct (Hall e Hin)
    as [?|(sc & loc & ((arr & ? & ?) & (disks & ? & ? & ? & ?) & ?) & ->)]; [by left|].
  right. by exists sc, arr, disks, loc.
Qed.

Lemma symLinkDisks_success_unmounted_witness :
  Forall (λ e, eventType e = ErrorEvent
               ∨ e = newSuccessEvent FoundMatchingDisk "found matching disk sdb" "/dev/sdb")
    (reported (symLinkDisks dStorage listOrder cfgByName (idle hNode)).2).
Proof.
  destruct (symLinkDisks_success_unmounted dStorage listOrder cfgByName (idle hNode))
    as (evs & Hevs & Hall).
  simpl in Hevs. rewrite Hevs. apply Forall_forall. intros e Hin.
  destruct (Hall _ Hin)
    as [?|(sc & arr & disks & loc & Hsc & Hloc & _ & _ & _ & _ & _ & He)]; [by left|].
  right.
  assert (Hmap : (findMatchingDisks listOrder cfgByName
                    (findNewDisks (lsblk (host (idle hNode))).1).1
                    (globbed (host (idle hNode))).1 (idle hNode)).1.1
                 = {[ "ssd" := [sdb] ]}) by (vm_compute; reflexivity).
  rewrite Hmap in Hsc. apply lookup_singleton_Some in Hsc as [<- <-].
  apply list_elem_of_singleton in Hloc as ->. exact He.
Defined.

(** ** The path of a shared directory *)

Lemma fold_cleanStep_down rooted elems k below :
  Forall (λ e, e ≠ "..") elems →
  fold_left (path.cleanStep rooted) elems (path.Cleaned k below)
  = path.Cleaned k (rev (filter (λ e, e ≠ "" ∧ e ≠ ".") elems) ++ below).
Proof.
  revert below. induction elems as [|e more IH]; intros below Hall; simpl; [done|].
  inversion_clear Hall as [|?? He Hmore]. unfold path.cleanStep at 2.
  destruct (String.eqb_spec e "") as [->|Hne]; simpl.
  { rewrite filter_cons_False by (by intros [? _]). by apply IH. }
  destruct (String.eqb_spec e ".") as [->|Hnd]; simpl.
  { rewrite filter_cons_False by (by intros [_ ?]). by apply IH. }
  rewrite (eqb_false _ _ He), filter_cons_True by done.
  rewrite IH by done. simpl. by rewrite <- app_assoc.
Qed.

Lemma Join_rootfs_fold directory :
  path.Join rootfsDir directory
  = path.render true
      (fold_left (path.cleanStep true) (strings.Split directory "/"%char)
         (path.Cleaned 0 ["rootfs"])).
Proof.
  unfold path.Join, rootfsDir. simpl.
  change ("/rootfs" +:+ String "/"%char directory)
    with (String "/"%char ("rootfs" +:+ String "/"%char directory)).
  by rewrite Clean_rooted, Split_append.
Qed.

(** X9. For a configured directory none of whose elements is [..], the
    path [findMatchingDisks] checks, creates and assigns is the root
    file system directory followed by the names of the configured path:
    empty elements and [.] are dropped, nothing else changes, and the
    path is /rootfs itself or lies below it. *)
Theorem Join_rootfs_inside (directory : string) :
  Forall (λ e, e ≠ "..") (strings.Split directory "/"%char) →
  path.Join rootfsDir directory
  = strings.Join (rootfsDir :: pathNames directory) "/"%char.
Proof.
  intros Hall. rewrite Join_rootfs_fold, fold_cleanStep_down by done.
  unfold path.render, pathNames. cbn [path.ups path.kept replicate app].
  rewrite rev_app_distr, rev_involutive. cbn [rev app].
  by destruct (filter _ _).
Qed.

Lemma Join_rootfs_inside_witness :
  path.Join rootfsDir "data//./disk1/" = "/rootfs/data/disk1".
Proof.
  rewrite (Join_rootfs_inside "data//./disk1/"); [reflexivity|].
  vm_compute. repeat constructor; discriminate.
Defined.

Lemma Join_rootfs_up rest :
  path.Join rootfsDir ("../" +:+ rest) = path.Clean (String "/"%char rest).
Proof.
  rewrite Join_rootfs_fold, Clean_rooted.
  change ("../" +:+ rest) with (".." +:+ String "/"%char rest).
  by rewrite Split_append.
Qed.

Lemma Split_rooted s : strings.Split (String "/"%char s) "/"%char = "" :: strings.Split s "/"%char.
Proof. reflexivity. Qed.

Lemma Join_rootfs_names names :
  Forall plainName names →
  path.Join rootfsDir ("../" +:+ strings.Join names "/"%char)
  = String "/"%char (strings.Join names "/"%char).
Proof.
  intros Hall. rewrite Join_rootfs_up, Clean_rooted.
  destruct names as [|e more]; [reflexivity|].
  rewrite Split_Join; [|done|].
  2:{ eapply Forall_impl; [exact Hall|]. by intros ? (_ & _ & _ & ?). }
  rewrite fold_cleanStep_names by done. unfold path.render.
  cbn [path.ups path.kept replicate app]. by rewrite app_nil_r, rev_involutive.
Qed.

Lemma Split_Join_rootfs below :
  ∃ rest, strings.Split (strings.Join (rootfsDir :: below) "/"%char) "/"%char
          = "" :: "rootfs" :: rest.
Proof.
  destruct below as [|b more].
  - by exists [].
  - change (strings.Join (rootfsDir :: b :: more) "/"%char)
      with (rootfsDir +:+ String "/"%char (strings.Join (b :: more) "/"%char)).
    rewrite Split_append. by eexists.
Qed.

(** X10. The configured directory is joined to the root file system
    directory without a check of its elements.  For a directory that
    starts with the element [..] and goes on with names, the first of
    which is not rootfs, the path of the pass over the directories is
    these names taken from the root: it is not /rootfs and does not lie
    below it.  When nothing lies at that path, with nothing but
    directories above it, that is the path the pass has [os.MkdirAll]
    create. *)
Theorem handleDirectory_leaves_rootfs (storageClass : string) (names : list string)
    (blockDeviceMap : gmap string (list DiskLocation)) (w : World) :
  Forall plainName names → head names ≠ Some "rootfs" →
  let directory := "../" +:+ strings.Join names "/"%char in
  let sharedDirPath := path.Join rootfsDir directory in
  sharedDirPath = String "/"%char (strings.Join names "/"%char)
  ∧ (∀ below, sharedDirPath ≠ strings.Join (rootfsDir :: below) "/"%char)
  ∧ (notThere (host w) sharedDirPath →
     attempted (handleDirectory storageClass directory blockDeviceMap w).2
     = attempted w ++ [SysMkdirAll sharedDirPath]).
Proof.
  intros Hall Hhead directory sharedDirPath.
  assert (Hpath : sharedDirPath = String "/"%char (strings.Join names "/"%char))
    by (by apply Join_rootfs_names).
  split; [done|]. split.
  - intros below Heq. rewrite Hpath in Heq.
    apply (f_equal (λ p, strings.Split p "/"%char)) in Heq.
    destruct (Split_Join_rootfs below) as [rest Hrest].
    rewrite Hrest, Split_rooted in Heq.
    destruct names as [|e more]; [discriminate Heq|].
    rewrite Split_Join in Heq; [|done|].
    + injection Heq as -> _. by destruct Hhead.
    + eapply Forall_impl; [exact Hall|]. by intros ? (_ & _ & _ & ?).
  - intros Hex%notThere_fileExists.
    unfold handleDirectory, bind, ask. fold directory. fold sharedDirPath. rewrite Hex.
    unfold callMkdirAll. destruct (os.MkdirAll _ _) as [h' err].
    by destruct (bool_decide (err ≠ None)).
Qed.

Lemma handleDirectory_leaves_rootfs_witness :
  path.Join rootfsDir "../mnt/x" = "/mnt/x"
  ∧ attempted (handleDirectory "nfs" "../mnt/x" ∅ (idle hNode)).2 = [SysMkdirAll "/mnt/x"].
Proof.
  destruct (handleDirectory_leaves_rootfs "nfs" ["mnt"; "x"] ∅ (idle hNode))
    as (Hpath & _ & Hcall).
  - repeat constructor; done.
  - discriminate.
  - split; [exact Hpath|]. apply Hcall. split; [reflexivity|].
    change (os.ancestorsOf (path.Join rootfsDir ("../" +:+ strings.Join ["mnt"; "x"] "/"%char)))
      with ["/mnt"].
    constructor; [|constructor]. split; [apply not_elem_of_empty|by right].
Defined.

(** ** The name of a bind placeholder *)

Lemma write32a_append h a b :
  fnv.write32a h (a +:+ b) = fnv.write32a (fnv.write32a h a) b.
Proof.
  revert h. induction a as [|c a IH]; intros h; [done|].
  rewrite append_cons. simpl. apply IH.
Qed.

Lemma write32a_bound h data : (h < 2 ^ 32)%N → (fnv.write32a h data < 2 ^ 32)%N.
Proof.
  revert h. induction data as [|c data IH]; intros h Hh; simpl; [done|].
  apply IH. unfold fnv.step32a. by apply N.mod_lt.
Qed.

Lemma hexDigit_cases (n : N) (P : N → Prop) :
  (n < 16)%N →
  P 0%N → P 1%N → P 2%N → P 3%N → P 4%N → P 5%N → P 6%N → P 7%N → P 8%N → P 9%N →
  P 10%N → P 11%N → P 12%N → P 13%N → P 14%N → P 15%N → P n.
Proof.
  intros Hn. intros.
  destruct n as [|p]; [done|].
  do 4 (destruct p as [p|p|]; try done); lia.
Qed.

Lemma digitValue_hexDigit n : (n < 16)%N → digitValue (fmt.hexDigit n) = n.
Proof. intros Hn. by apply (hexDigit_cases n (λ n, digitValue (fmt.hexDigit n) = n)). Qed.

Lemma hexDigit_plain n :
  (n < 16)%N → Ascii.eqb (fmt.hexDigit n) "/"%char = false.
Proof.
  intros Hn. by apply (hexDigit_cases n (λ n, Ascii.eqb (fmt.hexDigit n) "/"%char = false)).
Qed.

Lemma hexValue_hexInto digits n acc :
  (n < 16 ^ N.of_nat digits)%N → digits ≠ 0 →
  hexValue 0 (fmt.hexInto digits n acc) = hexValue n acc.
Proof.
  revert n acc. induction digits as [|digits IH]; intros n acc Hn Hd; [done|].
  simpl. assert (Hmod : (n mod 16 < 16)%N) by (by apply N.mod_lt).
  destruct (N.eqb_spec (n / 16) 0) as [Hq|Hq].
  - simpl. rewrite digitValue_hexDigit by done. f_equal.
    apply N.div_small_iff in Hq; [|done]. rewrite N.mod_small by done. lia.
  - assert (Hlt : (n / 16 < 16 ^ N.of_nat digits)%N).
    { apply N.Div0.div_lt_upper_bound.
      rewrite Nnat.Nat2N.inj_succ, N.pow_succ_r' in Hn. lia. }
    rewrite IH; [|done|].
    + simpl. rewrite digitValue_hexDigit by done. f_equal.
      clear Hn Hlt. pose proof (N.div_mod n 16 ltac:(done)) as Hdm. lia.
    + intros ->. change (16 ^ N.of_nat 0)%N with 1%N in Hlt. by apply N.lt_1_r in Hlt.
Qed.

Lemma hex32_value n : (n < 2 ^ 32)%N → hexValue 0 (fmt.hex32 n) = n.
Proof. intros Hn. unfold fmt.hex32. by rewrite hexValue_hexInto. Qed.

Lemma append_inj (p a b : string) : p +:+ a = p +:+ b → a = b.
Proof.
  induction p as [|c p IH]; [done|]. rewrite !append_cons. intros [= ?]. by apply IH.
Qed.

(** X11. The name of a bind placeholder tells the FNV-1a hash of the
    directory path followed by the class name, and nothing more: two
    pairs of a directory and a class have the same name exactly when
    these hashes are equal, the hexadecimal text of the name being the
    hash itself.  The two writes into the hash are not set apart, so
    pairs with the same concatenation, such as a directory that ends
    with the start of the class name, have the same name. *)
Theorem generateBindName_same (file class file' class' : string) :
  (generateBindName file class = generateBindName file' class'
   ↔ fnv.write32a fnv.offset32 (file +:+ class)
     = fnv.write32a fnv.offset32 (file' +:+ class'))
  ∧ (∀ middle, generateBindName (file +:+ middle) class
               = generateBindName file (middle +:+ class))
  ∧ ∃ digits, generateBindName file class = "local-shared-" +:+ digits
      ∧ hexValue 0 digits = fnv.write32a fnv.offset32 (file +:+ class).
Proof.
  assert (Hname : ∀ f c, generateBindName f c
            = "local-shared-" +:+ fmt.hex32 (fnv.write32a fnv.offset32 (f +:+ c))).
  { intros f c. unfold generateBindName. cbv zeta. by rewrite write32a_append. }
  assert (Hvalue : ∀ f c, hexValue 0 (fmt.hex32 (fnv.write32a fnv.offset32 (f +:+ c)))
            = fnv.write32a fnv.offset32 (f +:+ c)).
  { intros f c. apply hex32_value, write32a_bound. done. }
  split; [|split].
  - rewrite !Hname. split.
    + intros Heq%append_inj. by rewrite <- (Hvalue file class), Heq, Hvalue.
    + by intros ->.
  - intros middle. by rewrite !Hname, append_assoc.
  - eexists. split; [apply Hname|apply Hvalue].
Qed.

Lemma hexInto_plain digits n acc :
  has "/"%char acc = false → has "/"%char (fmt.hexInto digits n acc) = false.
Proof.
  revert n acc. induction digits as [|digits IH]; intros n acc Hacc; [done|].
  simpl. assert (Hmod : (n mod 16 < 16)%N) by (by apply N.mod_lt).
  assert (Hnew : has "/"%char (String (fmt.hexDigit (n mod 16)) acc) = false).
  { simpl. by rewrite hexDigit_plain. }
  destruct (n / 16 =? 0)%N; [done|]. by apply IH.
Qed.

(** X12. The name of a bind placeholder is one path element: it holds
    no slash and is neither empty nor [.] nor [..], whatever the
    directory path and the class name are. *)
Theorem generateBindName_element (file class : string) :
  plainName (generateBindName file class).
Proof.
  unfold generateBindName. cbv zeta.
  set (digits := fmt.hex32 _).
  assert (Hd : has "/"%char digits = false) by (by apply hexInto_plain).
  change ("local-shared-" +:+ digits) with
    (String "l" (String "o" (String "c" (String "a" (String "l" (String "-"
      (String "s" (String "h" (String "a" (String "r" (String "e" (String "d"
        (String "-" digits))))))))))))).
  split; [done|]. split; [done|]. split; [done|]. simpl. done.
Qed.

(** ** Listings put together *)

(** X13. The unmounted devices of two listings put one after the other
    are those of the first and those of the second: every line is read
    by itself, so the set does not depend on the order of the lines, a
    line about one device takes no other device out of the set, and a
    device that has one line without a mount point is in the set even
    when another line shows it mounted. *)
Theorem findNewDisks_lines (first second : string) :
  (findNewDisks (first +:+ String "010"%char second)).1
  = (findNewDisks first).1 ∪ (findNewDisks second).1.
Proof.
  unfold findNewDisks. cbn [fst]. rewrite Split_append.
  apply set_eq. intros device.
  rewrite elem_of_union, !findNewDisks_fold. split.
  - intros [?|(line & [?|?]%elem_of_app & ? & ?)]; [set_solver|left|right]; right; eauto.
  - intros [[?|(line & ? & ? & ?)]|[?|(line & ? & ? & ?)]]; [set_solver| |set_solver|];
      right; exists line; (split; [|done]); apply elem_of_app; auto.
Qed.

(** ** Links that are there *)

Lemma resolve_more links h p :
  resolve links h p = inr ENOENT → resolve (S links) h p = inr ENOENT.
Proof.
  revert p. induction links as [|n IH]; intros p.
  - simpl. destruct (decide (p ∈ denied h)); [done|].
    by destruct (nodes h !! p) as [[]|].
  - intros Hr. simpl in Hr. cbn [resolve].
    destruct (decide (p ∈ denied h)); [done|].
    destruct (nodes h !! p) as [[]|]; try done. by apply IH.
Qed.

Lemma resolve_link links h p target :
  p ∉ denied h → nodes h !! p = Some (SymbolicLink target) →
  resolve (S links) h p = resolve links h (linkTarget p target).
Proof. intros Hd Hn. cbn [resolve]. by rewrite decide_False, Hn. Qed.

Lemma fileExists_path h p : fileExists h p = true → p ≠ "".
Proof. by intros Hex ->. Qed.

(** The link made by [os.Symlink] to a rooted path that exists is a
    file that exists. *)
Lemma Symlink_exists h old new h' :
  path.isRooted old = true → fileExists h old = true →
  os.Symlink h old new = (h', None) →
  fileExists h' new = true.
Proof.
  intros Hroot Hold. unfold os.Symlink.
  destruct (os.creatable h new) eqn:Hc; [done|]. intros [= <-].
  pose proof (insert_fresh_grows h (path.Clean new) (SymbolicLink old)) as Hg.
  apply creatable_fresh in Hc as (Hne & Hden & Hfresh). specialize (Hg Hfresh).
  pose proof (fileExists_path _ _ Hold) as Hold_ne.
  unfold fileExists, os.Stat in *. rewrite (eqb_false _ _ Hne).
  rewrite (eqb_false _ _ Hold_ne) in Hold.
  set (h' := withNodes h (<[path.Clean new := SymbolicLink old]> (nodes h))) in *.
  assert (Hlink : nodes h' !! path.Clean new = Some (SymbolicLink old))
    by apply lookup_insert_eq.
  rewrite (resolve_link 39 h' (path.Clean new) old) by done.
  unfold linkTarget. rewrite Hroot.
  destruct (resolve 39 h (path.Clean old)) as [[q node]|errno] eqn:Hr.
  - by rewrite (resolve_grows _ _ _ _ _ Hg Hr).
  - destruct errno; try (by rewrite (resolve_grows _ _ _ _ _ Hg Hr)).
    by rewrite (resolve_more _ _ _ Hr) in Hold.
Qed.

(** X14. A device that is linked is linked once.  When the turn of
    [symLinkDisks] for a device assignment whose link target is a
    rooted path that exists reports the success event and nothing else
    (it made the link), a file exists at the place of the link
    afterwards, and the turn for any device assignment of the class
    with the same base name, be it the same assignment in the next
    cycle or the second assignment of a device matched under a name and
    under an identifier, changes nothing on the host and reports
    nothing: the link keeps the target it was made with. *)
Theorem symLinkDisk_linked_once (d : DiskMaker) (storageClass : string)
    (loc again : DiskLocation) (w : World) :
  directoryPath loc = "" → directoryPath again = "" →
  filepath.Base (diskNamePath again) = filepath.Base (diskNamePath loc) →
  path.isRooted (linkTargetOf loc) = true →
  fileExists (host w) (linkTargetOf loc) = true →
  let w1 := (symLinkDisk d storageClass loc w).2 in
  reported w1 = reported w ++ [linkedEvent loc] →
  let w2 := (symLinkDisk d storageClass again w1).2 in
  fileExists (host w1) (linkPath d storageClass loc) = true
  ∧ host w2 = host w1 ∧ reported w2 = reported w1
  ∧ attempted w2 = attempted w1 ++ [SysMkdirAll (classDir d storageClass)].
Proof.
  intros Hdir Hdir' Hbase Hroot Hold w1 Hrep w2. subst w1 w2.
  pose proof (callMkdirAll_frame (classDir d storageClass) w) as Hf.
  pose proof (worldGrows_callMkdirAll (classDir d storageClass) w) as Hg.
  destruct (callMkdirAll (classDir d storageClass) w) as [[err|] w0] eqn:Hmk.
  { destruct Hf as (Hr & _).
    rewrite (symLinkDisk_class_dir_failed d storageClass loc w err w0 Hmk) in Hrep.
    simpl in Hrep. rewrite Hr in Hrep. by apply app_inv_head in Hrep. }
  destruct Hf as (Hr & Ha & Hmade & _). specialize (Hmade eq_refl). simpl in Hg.
  destruct (fileExists (host w0) (linkPath d storageClass loc)) eqn:Hex.
  { rewrite (symLinkDisk_skips d storageClass loc w w0 Hdir Hmk Hex) in Hrep.
    simpl in Hrep. rewrite Hr in Hrep.
    rewrite <- (app_nil_r (reported w)) in Hrep at 1. by apply app_inv_head in Hrep. }
  pose proof (symLinkDisk_links d storageClass loc w w0 Hdir Hmk Hex) as Hrun.
  pose proof (OsSymlink_grows (host w0) (linkTargetOf loc) (linkPath d storageClass loc))
    as Hg2.
  destruct (os.Symlink (host w0) (linkTargetOf loc) (linkPath d storageClass loc))
    as [h2 [symLinkErr|]] eqn:Hlink.
  { rewrite Hrun in Hrep. simpl in Hrep. rewrite Hr in Hrep.
    by apply app_inv_head in Hrep. }
  rewrite Hrun in *. clear Hrun Hrep. simpl in Hg2.
  assert (Hnew : fileExists h2 (linkPath d storageClass loc) = true).
  { apply (Symlink_exists (host w0) (linkTargetOf loc) _ h2); [done| |done].
    by apply (fileExists_grows (host w)). }
  split; [done|].
  apply (symLinkDisk_untouched d storageClass again); [done| |].
  - simpl. by apply (Stat_grows (host w0)).
  - unfold linkPath. rewrite Hbase. done.
Qed.

Lemma symLinkDisk_linked_once_witness :
  let w1 := (symLinkDisk dStorage "ssd" sdb (idle hNode)).2 in
  let w2 := (symLinkDisk dStorage "ssd" (MkDiskLocation "/dev/sdb" "" "") w1).2 in
  fileExists (host w1) "/mnt/local-storage/ssd/sdb" = true
  ∧ host w2 = host w1 ∧ reported w2 = reported w1.
Proof.
  destruct (symLinkDisk_linked_once dStorage "ssd" sdb (MkDiskLocation "/dev/sdb" "" "")
              (idle hNode)) as (Hex & Hh & Hr & _); try reflexivity.
  by split; [|split].
Defined.



(** ** The matcher on a configuration of devices *)

Lemma assignmentsOf_addAll m sc locs sc' :
  assignmentsOf (addAll m sc locs) sc'
  = if decide (sc = sc') then assignmentsOf m sc ++ locs else assignmentsOf m sc'.
Proof.
  revert m. induction locs as [|[name id dir] more IH]; intros m; simpl.
  { destruct (decide (sc = sc')) as [<-|]; [by rewrite app_nil_r|done]. }
  fold (addAll (addDiskToMap m sc id name dir) sc more). rewrite IH.
  rewrite !assignmentsOf_add. destruct (decide (sc = sc')) as [<-|]; [|done].
  rewrite decide_True by done. by rewrite <- app_assoc.
Qed.

Lemma addAll_app m sc l1 l2 : addAll m sc (l1 ++ l2) = addAll (addAll m sc l1) sc l2.
Proof. unfold addAll. by rewrite fold_left_app. Qed.

(** A loop whose turns read the host and add at most one assignment
    each. *)
Lemma forEachWith_reads {A} (items : list A)
    (body : A → gmap string (list DiskLocation) → M (gmap string (list DiskLocation)))
    (sc : string) (f : Host → A → option DiskLocation) :
  (∀ item m w, body item m w = (addAll m sc (option_list (f (host w) item)), w)) →
  ∀ m w, forEachWith items body m w = (addAll m sc (omap (f (host w)) items), w).
Proof.
  intros Hbody. induction items as [|item more IH]; intros m w; [done|].
  cbn [forEachWith omap list_omap]. unfold bind. rewrite Hbody.
  destruct (f (host w) item) as [loc|]; [|apply IH].
  rewrite IH. reflexivity.
Qed.

Lemma handleStorageClass_devices deviceSet ids sc disks m w :
  DirectoryPaths disks = [] →
  handleStorageClass deviceSet ids (sc, disks) m w
  = (addAll m sc (classAssignments (host w) deviceSet ids disks),
     MkWorld (host w)
       (reported w ++ omap (idFailure (host w)) (sets.List (DeviceIDs disks)))
       (attempted w)).
Proof.
  intros Hdirs. unfold handleStorageClass, bind.
  rewrite (forEachWith_reads _ _ sc (λ h, nameAssignment h deviceSet ids))
    by apply handleDiskName_run.
  rewrite ids_pass_run, Hdirs. simpl.
  unfold classAssignments. by rewrite addAll_app.
Qed.

Lemma matcher_devices deviceSet ids (entries : list (string * Disks)) m w :
  NoDup entries.*1 →
  Forall (λ entry, DirectoryPaths entry.2 = []) entries →
  host (forEachWith entries (handleStorageClass deviceSet ids) m w).2 = host w
  ∧ attempted (forEachWith entries (handleStorageClass deviceSet ids) m w).2 = attempted w
  ∧ ∀ sc, assignmentsOf (forEachWith entries (handleStorageClass deviceSet ids) m w).1 sc
          = assignmentsOf m sc
            ++ default [] (classAssignments (host w) deviceSet ids
                             <$> (list_to_map entries : gmap string Disks) !! sc).
Proof.
  revert m w. induction entries as [|[sc0 disks0] more IH]; intros m w Hnd Hall.
  { split; [done|]. split; [done|]. intros sc. simpl. by rewrite lookup_empty, app_nil_r. }
  apply NoDup_cons in Hnd as [Hfresh Hnd].
  inversion_clear Hall as [|?? Hdirs Hmore]. simpl in Hdirs.
  cbn [forEachWith]. unfold bind.
  rewrite (handleStorageClass_devices _ _ _ _ _ _ Hdirs).
  destruct (IH (addAll m sc0 (classAssignments (host w) deviceSet ids disks0))
              (MkWorld (host w)
                 (reported w ++ omap (idFailure (host w)) (sets.List (DeviceIDs disks0)))
                 (attempted w)) Hnd Hmore) as (Hh & Ha & Hm).
  cbn [host attempted] in Hh, Ha, Hm. split; [done|]. split; [done|]. intros sc.
  rewrite Hm, assignmentsOf_addAll. cbn [list_to_map foldr fst snd curry].
  destruct (decide (sc0 = sc)) as [<-|Hne].
  - rewrite lookup_insert_eq. simpl.
    rewrite (not_elem_of_list_to_map_1 _ _ Hfresh). simpl. by rewrite app_nil_r.
  - by rewrite lookup_insert_ne.
Qed.

(** X16. For a configuration without shared directories the matcher
    reads the host only (it makes no changing call), and what it
    returns does not depend on the order in which Go ranges over the
    classes: the list of a class is the assignments of its device
    names, in sorted order, followed by those of its identifiers, in
    sorted order, each told on the host of the start; a class for which
    there is none, like a class that is not configured, has no entry in
    the map. *)
Theorem findMatchingDisks_devices (order : MapRange) (diskConfig : DiskConfig)
    (deviceSet : gset string) (allDiskIds : list string) (w : World) :
  (∀ sc disks, ConfigDisks diskConfig !! sc = Some disks → DirectoryPaths disks = []) →
  let '((deviceMap, _), w') := findMatchingDisks order diskConfig deviceSet allDiskIds w in
  host w' = host w ∧ attempted w' = attempted w
  ∧ ∀ storageClass,
      deviceMap !! storageClass
      = ConfigDisks diskConfig !! storageClass
          ≫= λ disks, entryOf (classAssignments (host w) deviceSet allDiskIds disks).
Proof.
  intros Hdirs.
  pose proof (findMatchingDisks_populated order diskConfig deviceSet allDiskIds w) as Hpop.
  unfold findMatchingDisks, bind in *.
  pose proof (matcher_devices deviceSet allDiskIds (rangeOver order (ConfigDisks diskConfig))
                ∅ w) as Hrun.
  assert (Hperm : rangeOver order (ConfigDisks diskConfig)
                  ≡ₚ map_to_list (ConfigDisks diskConfig)) by apply rangeOver_perm.
  assert (Hnd : NoDup (rangeOver order (ConfigDisks diskConfig)).*1).
  { rewrite Hperm. apply NoDup_fst_map_to_list. }
  assert (Hmap : (list_to_map (rangeOver order (ConfigDisks diskConfig)) : gmap string Disks)
                 = ConfigDisks diskConfig).
  { rewrite (list_to_map_proper _ _ Hnd Hperm). apply list_to_map_to_list. }
  rewrite Hmap in Hrun. specialize (Hrun Hnd).
  destruct (forEachWith _ _ ∅ w) as [deviceMap w']. simpl in *.
  destruct Hrun as (Hh & Ha & Hm).
  { apply Forall_forall. intros [sc disks] Hin%range_elem. by apply (Hdirs sc). }
  split; [done|]. split; [done|]. intros sc.
  specialize (Hm sc). specialize (Hpop sc). unfold assignmentsOf in Hm.
  rewrite lookup_empty in Hm. simpl in Hm.
  destruct (ConfigDisks diskConfig !! sc) as [disks|]; simpl in *.
  - rewrite <- Hm. by destruct (deviceMap !! sc) as [[|??]|].
  - by destruct (deviceMap !! sc) as [[|??]|].
Qed.

Lemma findMatchingDisks_devices_witness :
  (findMatchingDisks listOrder cfgByName {[ "sdb" ]} ["/dev/disk/by-id/ata-NEW"]
     (idle hNode)).1.1 !! "ssd"
  = Some [MkDiskLocation "/dev/sdb" "/dev/disk/by-id/ata-NEW" ""].
Proof.
  pose proof (findMatchingDisks_devices listOrder cfgByName {[ "sdb" ]}
                ["/dev/disk/by-id/ata-NEW"] (idle hNode)) as H.
  destruct (findMatchingDisks listOrder cfgByName {[ "sdb" ]} ["/dev/disk/by-id/ata-NEW"]
              (idle hNode)) as [[deviceMap e] w'].
  destruct H as (_ & _ & H).
  - intros sc disks Hsc.
    change (ConfigDisks cfgByName)
      with ({[ "ssd" := MkDisks {[ "/dev/sdb" ]} ∅ [] ]} : gmap string Disks) in Hsc.
    by apply lookup_singleton_Some in Hsc as [_ <-].
  - simpl. rewrite (H "ssd"). vm_compute. reflexivity.
Defined.

